(** * Ant Colony Optimisation for the TSP: a shallow embedding

    The development follows the Python sources
    [AntsColony/Pheromone.py], [AntsColony/Ant.py], [AntsColony/Colony.py],
    [AntsColony/Optimization.py] and [Problems/Problem.py].

    Conventions of the embedding.
    - Python floats are idealised as exact rationals [Q]; the value
      [float('inf')] only occurs as the initial best length and is kept in
      the type [efloat].  Division by zero raises [ZeroDivisionError], as it
      does for Python floats.
    - A numpy matrix is a list of rows; indexing out of range raises
      [IndexError].  Node indices are natural numbers.
    - Objects mutated in place are threaded as explicit state; a call that
      raises still returns the state reached before the exception.
    - Randomness, the clock, the transcendental functions of numpy and its
      sum reduction [np.sum], whose order of additions is numpy's own, are
      the fields of the class [Runtime].
    - The module [Binary64] repeats the two length computations on binary64
      floats, where the order of the additions matters. *)

From Stdlib Require Import PrimFloat.
From Stdlib Require Import QArith Qminmax Qround Lia Lqa.
From stdpp Require Import base option list gmap strings sorting.
From Equations Require Import Equations.
From Equations.Prop Require Import Logic.

Local Open Scope nat_scope.

(** ** Exceptions and results *)

Inductive exn : Set :=
| ZeroDivisionError
| IndexError
| ValueError
| TypeError
| AttributeError
| KeyError.

Inductive result (A : Type) : Type :=
| Ok (a : A)
| Raise (e : exn).
Arguments Ok {A} a.
Arguments Raise {A} e.

Definition of_option {A} (e : exn) (o : option A) : result A :=
  match o with Some a => Ok a | None => Raise e end.

(** ** Floats *)

Definition Qlt_bool (x y : Q) : bool := negb (Qle_bool y x).

(** A float that may be [float('inf')]. *)
Inductive efloat : Type :=
| Finite (q : Q)
| PosInf.

(** [x < b] for a finite [x] and a possibly infinite [b]. *)
Definition lt_efloat (x : Q) (b : efloat) : bool :=
  match b with
  | Finite q => Qlt_bool x q
  | PosInf => true
  end.

(** [a <= b] on possibly infinite floats, as a proposition. *)
Definition efloat_le (a b : efloat) : Prop :=
  match a, b with
  | _, PosInf => True
  | PosInf, Finite _ => False
  | Finite x, Finite y => (x <= y)%Q
  end.

(** [a < b] on possibly infinite floats, as a proposition. *)
Definition efloat_lt (a b : efloat) : Prop :=
  match a, b with
  | PosInf, _ => False
  | Finite _, PosInf => True
  | Finite x, Finite y => (x < y)%Q
  end.

(** [np.clip(x, lo, hi)] *)
Definition clip (x lo hi : Q) : Q :=
  if Qlt_bool x lo then lo else if Qlt_bool hi x then hi else x.

(** ** Matrices *)

Abbreviation matrix := (list (list Q)).

(** [m[i, j]] *)
Definition mget (m : matrix) (i j : nat) : option Q :=
  row ← m !! i; row !! j.

(** [m[i, j] += d]; [None] when the index is out of range. *)
Definition madd (m : matrix) (i j : nat) (d : Q) : option matrix :=
  row ← m !! i; x ← row !! j; Some (<[i := <[j := (x + d)%Q]> row]> m).

(** [m[i, cols]]: the entries of row [i] at the columns [cols]. *)
Definition mgather (m : matrix) (i : nat) (cols : list nat) : option (list Q) :=
  row ← m !! i; mapM (fun j => row !! j) cols.

(** [np.full((n, n), x)] *)
Definition np_full (n : nat) (x : Q) : matrix := replicate n (replicate n x).

(** [np.argmin]: the first index of a minimum. *)
Fixpoint argmin_from (best_i : nat) (best : Q) (i : nat) (l : list Q) : nat :=
  match l with
  | [] => best_i
  | x :: l' =>
      if Qlt_bool x best then argmin_from i x (S i) l'
      else argmin_from best_i best (S i) l'
  end.

Definition np_argmin (l : list Q) : option nat :=
  match l with
  | [] => None
  | x :: l' => Some (argmin_from 0 x 1 l')
  end.

(** ** Pheromone.py *)

Module Pheromone.

Record t : Type := mk {
  trails : matrix;
  evaporation_rate : Q;
  pheromone_deposit : Q
}.

Definition __init__ (num_nodes : nat) (evaporation_rate pheromone_deposit : Q) : t :=
  {| trails := np_full num_nodes (1 # 10);
     evaporation_rate := clip evaporation_rate 0 1;
     pheromone_deposit := pheromone_deposit |}.

Definition evaporate (self : t) (evaporation_rate : option Q) : t :=
  let rate :=
    match evaporation_rate with
    | Some r => clip r 0 1
    | None => self.(Pheromone.evaporation_rate)
    end in
  {| trails := map (map (fun x => (x * (1 - rate))%Q)) self.(trails);
     evaporation_rate := rate;
     pheromone_deposit := self.(pheromone_deposit) |}.

(** [a or b] on an optional float: [None] and [0.0] are both falsy. *)
Definition or_default (a : option Q) (b : Q) : Q :=
  match a with
  | Some x => if Qeq_bool x 0 then b else x
  | None => b
  end.

(** [trails[i, j] += d; trails[j, i] += d], stopping at the first
    [IndexError] with the matrix as it is then. *)
Definition deposit_edge (d : Q) (m : matrix) (i j : nat) : result unit * matrix :=
  match madd m i j d with
  | None => (Raise IndexError, m)
  | Some m1 =>
      match madd m1 j i d with
      | None => (Raise IndexError, m1)
      | Some m2 => (Ok tt, m2)
      end
  end.

(** The loop [for i, j in zip(route[:-1], route[1:])]. *)
Fixpoint deposit_edges (d : Q) (m : matrix) (edges : list (nat * nat))
  : result unit * matrix :=
  match edges with
  | [] => (Ok tt, m)
  | (i, j) :: rest =>
      match deposit_edge d m i j with
      | (Ok _, m') => deposit_edges d m' rest
      | (Raise e, m') => (Raise e, m')
      end
  end.

(** [zip(route[:-1], route[1:])] *)
Definition consecutive (route : list nat) : list (nat * nat) :=
  zip (removelast route) (tail route).

Definition with_trails (self : t) (m : matrix) : t :=
  {| trails := m;
     evaporation_rate := self.(evaporation_rate);
     pheromone_deposit := self.(pheromone_deposit) |}.

Definition deposit (self : t) (route : list nat) (length : Q)
    (pheromone_deposit : option Q) : result unit * t :=
  if Qeq_bool length 0 then (Raise ZeroDivisionError, self)
  else
    let deposit_amount :=
      (or_default pheromone_deposit self.(Pheromone.pheromone_deposit) / length)%Q in
    match deposit_edges deposit_amount self.(trails) (consecutive route) with
    | (Raise e, m) => (Raise e, with_trails self m)
    | (Ok _, m) =>
        match head route, last route with
        | Some first, Some final =>
            if decide (first = final) then (Ok tt, with_trails self m)
            else
              match deposit_edge deposit_amount m final first with
              | (r, m') => (r, with_trails self m')
              end
        | _, _ => (Raise IndexError, with_trails self m)
        end
    end.

End Pheromone.

(** ** The runtime: randomness, clock, files, numpy's real functions *)

(** A row of a TSPLIB file: [{'name': int, 'x': float, 'y': float}]. *)
Record node : Type := mk_node {
  node_name : Z;
  node_x : Q;
  node_y : Q
}.

Class Runtime : Type := {
  (** the state of the random generators, the clock and the file system *)
  World : Type;
  (** [x ** y] on floats *)
  np_power : Q -> Q -> Q;
  (** [np.sqrt] *)
  np_sqrt : Q -> Q;
  (** [np.sum] of a one-dimensional array: numpy adds the elements in an
      order of its own (pairwise, in blocks), which is left open here *)
  np_sum : list Q -> Q;
  (** [np.random.choice(a, p=p)] *)
  np_random_choice : list nat -> list Q -> World -> result nat * World;
  (** [random.randint(a, b)] *)
  random_randint : Z -> Z -> World -> result Z * World;
  (** [time.time()] *)
  time_time : World -> Q * World;
  (** [Problem.load_nodes]: reads (and downloads) the problem file *)
  load_nodes : string -> World -> result (option (list node)) * World
}.

(** What the model assumes of the random sources: a sampled node is one of
    the candidates, and [randint(a, b)] lies in [a..b]. *)
Class RuntimeLaws (R : Runtime) : Prop := {
  np_random_choice_elem :
    forall a p w n w', np_random_choice a p w = (Ok n, w') -> n ∈ a;
  random_randint_range :
    forall a b w n w', random_randint a b w = (Ok n, w') -> (a <= n <= b)%Z
}.

(** ** Problem.py *)

Module Problem.

Record t : Type := mk {
  name : string;
  local_file : string;
  nodes : option (list node);
  distances : option matrix;
  best_known_length : Z;
  num_ants : Z;
  alpha : Q;
  beta : Q;
  evaporation_rate : Q;
  pheromone_rate : Q
}.

(** The class attribute [best_known_lengths]. *)
Definition best_known_lengths : list (string * Z) :=
  [("a280", 2579); ("ali535", 202339); ("att48", 10628); ("att532", 27686);
   ("bayg29", 1610); ("bays29", 2020); ("berlin52", 7542);
   ("bier127", 118282); ("brazil58", 25395); ("brd14051", 469385);
   ("brg180", 1950); ("burma14", 3323); ("ch130", 6110); ("ch150", 6528);
   ("d198", 15780); ("d493", 35002); ("d657", 48912); ("d1291", 50801);
   ("d1655", 62128); ("d2103", 80450); ("d15112", 1573084);
   ("d18512", 645238); ("dantzig42", 699); ("dsj1000_EUC_2D", 18659688);
   ("dsj1000_CEIL_2D", 18660188); ("eil51", 426); ("eil76", 538);
   ("eil101", 629); ("fl417", 11861); ("fl1400", 20127); ("fl1577", 22249);
   ("fl3795", 28772); ("fnl4461", 182566); ("fri26", 937); ("gil262", 2378);
   ("gr17", 2085); ("gr21", 2707); ("gr24", 1272); ("gr48", 5046);
   ("gr96", 55209); ("gr120", 6942); ("gr137", 69853); ("gr202", 40160);
   ("gr229", 134602); ("gr431", 171414); ("gr666", 294358); ("hk48", 11461);
   ("kroA100", 21282); ("kroB100", 22141); ("kroC100", 20749);
   ("kroD100", 21294); ("kroE100", 22068); ("kroA150", 26524);
   ("kroB150", 26130); ("kroA200", 29368); ("kroB200", 29437);
   ("lin105", 14379); ("lin318", 42029); ("linhp318", 41345);
   ("nrw1379", 56638); ("p654", 34643); ("pa561", 2763); ("pcb442", 50778);
   ("pcb1173", 56892); ("pcb3038", 137694); ("pla7397", 23260728);
   ("pla33810", 66048945); ("pla85900", 142382641); ("pr76", 108159);
   ("pr107", 44303); ("pr124", 59030); ("pr136", 96772); ("pr144", 58537);
   ("pr152", 73682); ("pr226", 80369); ("pr264", 49135); ("pr299", 48191);
   ("pr439", 107217); ("pr1002", 259045); ("pr2392", 378032);
   ("rat99", 1211); ("rat195", 2323); ("rat575", 6773); ("rat783", 8806);
   ("rd100", 7910); ("rd400", 15281); ("rl1304", 252948); ("rl1323", 270199);
   ("rl1889", 316536); ("rl5915", 565530); ("rl5934", 556045);
   ("rl11849", 923288); ("si175", 21407); ("si535", 48450);
   ("si1032", 92650); ("st70", 675); ("swiss42", 1273); ("ts225", 126643);
   ("tsp225", 3916); ("u159", 42080); ("u574", 36905); ("u724", 41910);
   ("u1060", 224094); ("u1432", 152970); ("u1817", 57201); ("u2152", 64253);
   ("u2319", 234256); ("ulysses16", 6859); ("ulysses22", 7013);
   ("usa13509", 19982859); ("vm1084", 239297); ("vm1748", 336556)]%Z.

(** [dict.get(key, default)] *)
Fixpoint dict_get (table : list (string * Z)) (key : string) (default : Z) : Z :=
  match table with
  | [] => default
  | (k, v) :: rest => if decide (k = key) then v else dict_get rest key default
  end.

Section WithRuntime.
Context {R : Runtime}.

(** [np.sqrt(x_diffs ** 2 + y_diffs ** 2)] over the outer differences, for
    a table with at least one row.  A table built from no rows has no
    columns, and the reads [self.nodes['x']] raise [KeyError]: see
    [__init__]. *)
Definition compute_distance_matrix (nodes : list node) : matrix :=
  map (fun a =>
         map (fun b =>
                np_sqrt ((node_x a - node_x b) ^ 2 + (node_y a - node_y b) ^ 2)%Q)
             nodes)
      nodes.

Definition __init__ (problem_name : string) (num_ants : Z)
    (alpha beta evaporation_rate pheromone_rate : Q) (w : World)
  : result t * World :=
  match load_nodes problem_name w with
  | (Raise e, w') => (Raise e, w')
  | (Ok (Some []), w') =>
      (* [pd.DataFrame([])['x']] in [compute_distance_matrix] *)
      (Raise KeyError, w')
  | (Ok loaded, w') =>
      (Ok {| name := problem_name;
             local_file := "Problems/" +:+ problem_name +:+ ".tsp";
             nodes := loaded;
             distances := compute_distance_matrix <$> loaded;
             best_known_length := dict_get best_known_lengths problem_name 0;
             num_ants := num_ants;
             alpha := alpha;
             beta := beta;
             evaporation_rate := evaporation_rate;
             pheromone_rate := pheromone_rate |}, w')
  end.

(** [self.distances[route[:-1], route[1:]]] *)
Definition edge_lengths (d : matrix) (route : list nat) : option (list Q) :=
  mapM (fun e : nat * nat => mget d e.1 e.2) (zip (removelast route) (tail route)).

Definition get_length (self : t) (route : list nat) : result Q :=
  match route, self.(distances) with
  | [], _ => Ok 0%Q
  | _, None => Ok 0%Q
  | first :: _, Some d =>
      match edge_lengths d route with
      | None => Raise IndexError
      | Some ls =>
          let total_length := np_sum ls in
          match mget d (List.last route first) first with
          | None => Raise IndexError
          | Some closing => Ok (total_length + closing)%Q
          end
      end
  end.

End WithRuntime.

End Problem.

(** The line scanner of [Problem.load_nodes], on the lines of the problem
    file as [open(...)] yields them after the download attempt; [None] is a
    file that does not exist.  The string operations are Python's. *)
Module ProblemFile.

Section WithPython.
(** [str.strip()], [str.split()], [int(s)] and [float(s)] *)
Variable str_strip : string -> string.
Variable str_split : string -> list string.
Variable int_of : string -> result Z.
Variable float_of : string -> result Q.

(** [{'name': int(parts[0]), 'x': float(parts[1]), 'y': float(parts[2])}] *)
Definition parse_row (line : string) : result node :=
  let parts := str_split line in
  match parts !! 0%nat with
  | None => Raise IndexError
  | Some p0 =>
      match int_of p0 with
      | Raise e => Raise e
      | Ok name =>
          match parts !! 1%nat with
          | None => Raise IndexError
          | Some p1 =>
              match float_of p1 with
              | Raise e => Raise e
              | Ok x =>
                  match parts !! 2%nat with
                  | None => Raise IndexError
                  | Some p2 =>
                      match float_of p2 with
                      | Raise e => Raise e
                      | Ok y => Ok (mk_node name x y)
                      end
                  end
              end
          end
      end
  end.

(** [for line in file: ...] *)
Fixpoint scan (reading_nodes : bool) (nodes_data : list node) (lines : list string)
  : result (list node) :=
  match lines with
  | [] => Ok nodes_data
  | raw :: rest =>
      let line := str_strip raw in
      if decide (line = "NODE_COORD_SECTION") then scan true nodes_data rest
      else if decide (line = "EOF") then Ok nodes_data
      else if reading_nodes then
        match parse_row line with
        | Raise e => Raise e
        | Ok row => scan true (nodes_data ++ [row]) rest
        end
      else scan reading_nodes nodes_data rest
  end.

Definition load_nodes (file : option (list string)) : result (option (list node)) :=
  match file with
  | None => Ok None
  | Some lines =>
      match scan false [] lines with
      | Raise e => Raise e
      | Ok nodes_data => Ok (Some nodes_data)
      end
  end.

End WithPython.

End ProblemFile.

(** ** Ant.py *)

Module Ant.

Record t : Type := mk {
  start_node : nat;
  route : list nat;
  visited : gset nat;
  total_distance : Q;
  num_nodes : nat;
  alpha : Q;
  beta : Q
}.

Definition __init__ (start_node num_nodes : nat) (alpha beta : Q) : t :=
  {| start_node := start_node;
     route := [start_node];
     visited := {[ start_node ]};
     total_distance := 0;
     num_nodes := num_nodes;
     alpha := alpha;
     beta := beta |}.

Definition reset (self : t) : t :=
  {| start_node := self.(start_node);
     route := [self.(start_node)];
     visited := {[ self.(start_node) ]};
     total_distance := 0;
     num_nodes := self.(num_nodes);
     alpha := self.(alpha);
     beta := self.(beta) |}.

(** [self.route.append(n); self.visited.add(n)] *)
Definition visit (self : t) (n : nat) : t :=
  {| start_node := self.(start_node);
     route := self.(route) ++ [n];
     visited := {[ n ]} ∪ self.(visited);
     total_distance := self.(total_distance);
     num_nodes := self.(num_nodes);
     alpha := self.(alpha);
     beta := self.(beta) |}.

(** [self.route.append(n)] *)
Definition append_route (self : t) (n : nat) : t :=
  {| start_node := self.(start_node);
     route := self.(route) ++ [n];
     visited := self.(visited);
     total_distance := self.(total_distance);
     num_nodes := self.(num_nodes);
     alpha := self.(alpha);
     beta := self.(beta) |}.

(** [self.total_distance += d] *)
Definition add_distance (self : t) (d : Q) : t :=
  {| start_node := self.(start_node);
     route := self.(route);
     visited := self.(visited);
     total_distance := (self.(total_distance) + d)%Q;
     num_nodes := self.(num_nodes);
     alpha := self.(alpha);
     beta := self.(beta) |}.

(** [[node for node in range(self.num_nodes) if node not in self.visited]] *)
Definition available_nodes (self : t) : list nat :=
  filter (fun node => node ∉ self.(visited)) (seq 0 self.(num_nodes)).

Section WithRuntime.
Context {R : Runtime}.

(** [np.where(distances_to_nodes > 0, (1.0 / distances_to_nodes) ** beta, 0)] *)
Definition heuristic_values (self : t) (distances_to_nodes : list Q) : list Q :=
  map (fun d => if Qlt_bool 0 d then np_power (1 / d) self.(beta) else 0%Q)
      distances_to_nodes.

(** [pheromone_levels ** self.alpha * heuristic_values] *)
Definition probabilities (self : t) (pheromone_levels heuristics : list Q) : list Q :=
  zip_with (fun p h => (np_power p self.(alpha) * h)%Q) pheromone_levels heuristics.

Definition _choose_next_node (self : t) (distances pheromones : matrix) (w : World)
  : result nat * World :=
  match last self.(route) with
  | None => (Raise IndexError, w)
  | Some current_node =>
      let available := available_nodes self in
      match mgather pheromones current_node available with
      | None => (Raise IndexError, w)
      | Some pheromone_levels =>
          match mgather distances current_node available with
          | None => (Raise IndexError, w)
          | Some distances_to_nodes =>
              let probs :=
                probabilities self pheromone_levels
                  (heuristic_values self distances_to_nodes) in
              if Qeq_bool (np_sum probs) 0 then
                match np_argmin distances_to_nodes with
                | None => (Raise ValueError, w)
                | Some k => (of_option IndexError (available !! k), w)
                end
              else
                np_random_choice available
                  (map (fun p => (p / np_sum probs)%Q) probs) w
          end
      end
  end.

(** One turn of the loop of [find_route]. *)
Definition visit_next (distances pheromones : matrix) (st : t * World)
  : result unit * (t * World) :=
  match _choose_next_node st.1 distances pheromones st.2 with
  | (Raise e, w') => (Raise e, (st.1, w'))
  | (Ok next_node, w') =>
      match last st.1.(route) with
      | None => (Raise IndexError, (st.1, w'))
      | Some current_node =>
          let self := visit st.1 next_node in
          match mget distances current_node next_node with
          | None => (Raise IndexError, (self, w'))
          | Some d => (Ok tt, (add_distance self d, w'))
          end
      end
  end.

Lemma visit_next_length distances pheromones st st' :
  visit_next distances pheromones st = (Ok tt, st') ->
  length st'.1.(route) = S (length st.1.(route)) /\
  st'.1.(num_nodes) = st.1.(num_nodes).
Proof.
  unfold visit_next.
  destruct (_choose_next_node _ _ _ _) as [[n|e] w']; [|discriminate].
  destruct (last _) as [c|]; [|discriminate].
  destruct (mget _ _ _); [|discriminate].
  intros [= <-]. simpl. rewrite length_app. simpl. split; [lia|reflexivity].
Qed.

(** [while len(self.route) < self.num_nodes: ...] *)
Equations? while_unvisited (distances pheromones : matrix) (st : t * World)
  : result unit * (t * World)
  by wf (st.1.(num_nodes) - length st.1.(route)) lt :=
while_unvisited distances pheromones st
    with inspect (length st.1.(route) <? st.1.(num_nodes)) := {
  | exist _ false _ => (Ok tt, st)
  | exist _ true Hlt with inspect (visit_next distances pheromones st) := {
    | exist _ (Ok _, st') Hstep => while_unvisited distances pheromones st'
    | exist _ (Raise e, st') _ => (Raise e, st') } }.
Proof.
  destruct a. apply visit_next_length in Hstep. simpl in Hstep.
  apply Nat.ltb_lt in Hlt. simpl in Hlt. lia.
Qed.

Definition find_route (self : t) (distances pheromones : matrix) (w : World)
  : result unit * (t * World) :=
  match while_unvisited distances pheromones (reset self, w) with
  | (Raise e, st) => (Raise e, st)
  | (Ok _, (self1, w1)) =>
      let self2 := append_route self1 self1.(start_node) in
      match last self1.(route) with
      | None => (Raise IndexError, (self2, w1))
      | Some previous =>
          match mget distances previous self1.(start_node) with
          | None => (Raise IndexError, (self2, w1))
          | Some d => (Ok tt, (add_distance self2 d, w1))
          end
      end
  end.

(** [find_route(None, pheromones)], for a problem whose nodes did not load:
    the first read of [distances] raises [TypeError].  In the loop that read
    comes after the read of the pheromone row; without a loop turn it comes
    after the start node is appended. *)
Definition find_route_without_distances (self : t) (pheromones : matrix) (w : World)
  : result unit * (t * World) :=
  let self0 := reset self in
  if length self0.(route) <? self0.(num_nodes) then
    match mgather pheromones self0.(start_node) (available_nodes self0) with
    | None => (Raise IndexError, (self0, w))
    | Some _ => (Raise TypeError, (self0, w))
    end
  else (Raise TypeError, (append_route self0 self0.(start_node), w)).

End WithRuntime.

End Ant.

(** ** Stateful code that may raise *)

Definition M (S A : Type) : Type := S -> result A * S.

Definition ret {S A} (a : A) : M S A := fun s => (Ok a, s).

Definition bind {S A B} (m : M S A) (k : A -> M S B) : M S B :=
  fun s =>
    match m s with
    | (Ok a, s') => k a s'
    | (Raise e, s') => (Raise e, s')
    end.

Definition raise {S A} (e : exn) : M S A := fun s => (Raise e, s).

Definition gets {S A} (f : S -> A) : M S A := fun s => (Ok (f s), s).

Definition modify {S} (f : S -> S) : M S unit := fun s => (Ok tt, f s).

Notation "'let*' x ':=' m 'in' k" := (bind m (fun x => k))
  (at level 10, x name, m at level 100, k at level 200, only parsing).
Notation "m ';;' k" := (bind m (fun _ => k))
  (at level 100, k at level 200, right associativity, only parsing).

(** [for x in xs: body(x)] *)
Fixpoint for_each {S X} (xs : list X) (body : X -> M S unit) : M S unit :=
  match xs with
  | [] => ret tt
  | x :: rest => body x ;; for_each rest body
  end.

(** ** Colony.py *)

Module Colony.

(** One entry of [iteration_history]. *)
Record history_entry : Type := mk_entry {
  iteration : nat;
  iteration_time_ms : Q;
  cumulative_time_ms : Q;
  entry_best_length : efloat
}.

Record t : Type := mk {
  problem : Problem.t;
  num_nodes : nat;
  pheromones : Pheromone.t;
  ants : list Ant.t;
  best_route : list nat;
  best_length : efloat;
  best_iteration : nat;
  best_iteration_time_ms : Q;
  iteration_history : list history_entry;
  total_time_ms : Q;
  current_iteration : nat;
  _start_time : option Q
}.

Definition set_pheromones (self : t) (p : Pheromone.t) : t :=
  mk self.(problem) self.(num_nodes) p self.(ants) self.(best_route)
     self.(best_length) self.(best_iteration) self.(best_iteration_time_ms)
     self.(iteration_history) self.(total_time_ms) self.(current_iteration)
     self.(_start_time).

Definition set_ants (self : t) (a : list Ant.t) : t :=
  mk self.(problem) self.(num_nodes) self.(pheromones) a self.(best_route)
     self.(best_length) self.(best_iteration) self.(best_iteration_time_ms)
     self.(iteration_history) self.(total_time_ms) self.(current_iteration)
     self.(_start_time).

(** The four assignments under [if route_length < self.best_length]. *)
Definition set_best (self : t) (route_length : Q) (route : list nat) : t :=
  mk self.(problem) self.(num_nodes) self.(pheromones) self.(ants) route
     (Finite route_length) self.(current_iteration) self.(total_time_ms)
     self.(iteration_history) self.(total_time_ms) self.(current_iteration)
     self.(_start_time).

Definition start_iteration (self : t) (now : Q) : t :=
  mk self.(problem) self.(num_nodes) self.(pheromones) self.(ants)
     self.(best_route) self.(best_length) self.(best_iteration)
     self.(best_iteration_time_ms) self.(iteration_history)
     self.(total_time_ms) (self.(current_iteration) + 1) (Some now).

Definition record_iteration (self : t) (iteration_time : Q) : t :=
  let total := (self.(total_time_ms) + iteration_time)%Q in
  mk self.(problem) self.(num_nodes) self.(pheromones) self.(ants)
     self.(best_route) self.(best_length) self.(best_iteration)
     self.(best_iteration_time_ms)
     (self.(iteration_history) ++
        [mk_entry self.(current_iteration) iteration_time total self.(best_length)])
     total self.(current_iteration) self.(_start_time).

(** [sorted(ants, key=lambda ant: ant.total_distance)]: a stable sort. *)
Fixpoint insert_sorted (a : Ant.t) (l : list Ant.t) : list Ant.t :=
  match l with
  | [] => [a]
  | b :: rest =>
      if Qle_bool a.(Ant.total_distance) b.(Ant.total_distance)
      then a :: b :: rest
      else b :: insert_sorted a rest
  end.

Definition sorted (l : list Ant.t) : list Ant.t := foldr insert_sorted [] l.

Section WithRuntime.
Context {R : Runtime}.

(** [[Ant(random.randint(0, n - 1), n, alpha, beta) for _ in range(k)]] *)
Fixpoint make_ants (k : nat) (n : nat) (alpha beta : Q) : M World (list Ant.t) :=
  match k with
  | O => ret []
  | S k' =>
      let* start := random_randint 0 (Z.of_nat n - 1) in
      let* rest := make_ants k' n alpha beta in
      ret (Ant.__init__ (Z.to_nat start) n alpha beta :: rest)
  end.

Definition __init__ (problem : Problem.t) : M World t :=
  match problem.(Problem.nodes) with
  | None => raise TypeError
  | Some nodes =>
      let n := length nodes in
      let* ants :=
        make_ants (Z.to_nat problem.(Problem.num_ants)) n
          problem.(Problem.alpha) problem.(Problem.beta) in
      ret {| problem := problem;
             num_nodes := n;
             pheromones :=
               Pheromone.__init__ n problem.(Problem.evaporation_rate)
                 problem.(Problem.pheromone_rate);
             ants := ants;
             best_route := seq 0 n;
             best_length := PosInf;
             best_iteration := 0;
             best_iteration_time_ms := 0;
             iteration_history := [];
             total_time_ms := 0;
             current_iteration := 0;
             _start_time := None |}
  end.

(** [time.time()] inside a method of the colony. *)
Definition now : M (t * World) Q :=
  fun st => let (x, w') := time_time st.2 in (Ok x, (st.1, w')).

Definition _prepare_iteration : M (t * World) unit :=
  let* x := now in
  modify (fun st => (start_iteration st.1 x, st.2)).

(** The body of [for ant in self.ants] in [_perform_iteration], for the
    ant at index [i]. *)
Definition construct_and_compare (i : nat) : M (t * World) unit :=
  fun st =>
    match st.1.(ants) !! i with
    | None => (Raise IndexError, st)
    | Some ant =>
        let '(r, (ant', w')) :=
          match st.1.(problem).(Problem.distances) with
          | Some d =>
              Ant.find_route ant d st.1.(pheromones).(Pheromone.trails) st.2
          | None =>
              Ant.find_route_without_distances ant
                st.1.(pheromones).(Pheromone.trails) st.2
          end in
        let self := set_ants st.1 (<[i := ant']> st.1.(ants)) in
        match r with
        | Raise e => (Raise e, (self, w'))
        | Ok _ =>
            match Problem.get_length self.(problem) ant'.(Ant.route) with
            | Raise e => (Raise e, (self, w'))
            | Ok route_length =>
                if lt_efloat route_length self.(best_length)
                then (Ok tt, (set_best self route_length ant'.(Ant.route), w'))
                else (Ok tt, (self, w'))
            end
        end
    end.

(** [for ant in top_ants: self.pheromones.deposit(ant.route, ant.total_distance)] *)
Fixpoint deposit_all (top_ants : list Ant.t) : M Pheromone.t unit :=
  match top_ants with
  | [] => ret tt
  | ant :: rest =>
      (fun p => Pheromone.deposit p ant.(Ant.route) ant.(Ant.total_distance) None) ;;
      deposit_all rest
  end.

Definition _update_pheromones : M (t * World) unit :=
  fun st =>
    let p := Pheromone.evaporate st.1.(pheromones) None in
    let top_ants := take 5 (sorted st.1.(ants)) in
    let (r, p') := deposit_all top_ants p in
    (r, (set_pheromones st.1 p', st.2)).

Definition _perform_iteration : M (t * World) unit :=
  let* n := gets (fun st => length st.1.(ants)) in
  for_each (seq 0 n) construct_and_compare ;;
  _update_pheromones ;;
  modify (fun st => (set_ants st.1 (map Ant.reset st.1.(ants)), st.2)).

Definition _finalize_iteration : M (t * World) unit :=
  let* x := now in
  let* started := gets (fun st => st.1.(_start_time)) in
  match started with
  | None => raise AttributeError
  | Some t0 =>
      modify (fun st => (record_iteration st.1 ((x - t0) * 1000)%Q, st.2))
  end.

Definition run_iteration : M (t * World) (list nat * efloat) :=
  _prepare_iteration ;;
  _perform_iteration ;;
  _finalize_iteration ;;
  gets (fun st => (st.1.(best_route), st.1.(best_length))).

End WithRuntime.

End Colony.

(** ** Optimization.py *)

Module Optimization.

(** One entry of the driver's [iteration_history]. *)
Record history_entry : Type := mk_entry {
  iteration : nat;
  entry_best_route : option (list nat);
  entry_best_length : efloat
}.

(** The dictionary handed to the callback. *)
Record progress : Type := mk_progress {
  progress_iteration : nat;
  progress_best_route : option (list nat);
  progress_best_length : efloat;
  progress_iteration_history : list history_entry
}.

Record t : Type := mk {
  num_iterations : Z;
  colony : Colony.t;
  best_route : option (list nat);
  best_length : efloat;
  iteration_history : list history_entry
}.

Definition set_colony (self : t) (c : Colony.t) : t :=
  mk self.(num_iterations) c self.(best_route) self.(best_length)
     self.(iteration_history).

Definition set_best (self : t) (length : efloat) (route : list nat) : t :=
  mk self.(num_iterations) self.(colony) (Some route) length
     self.(iteration_history).

Definition append_history (self : t) (iteration : nat) : t :=
  mk self.(num_iterations) self.(colony) self.(best_route) self.(best_length)
     (self.(iteration_history) ++
        [mk_entry iteration self.(best_route) self.(best_length)]).

(** [best_length < self.best_length] on floats that may be infinite. *)
Definition efloat_ltb (a b : efloat) : bool :=
  match a with
  | Finite x => lt_efloat x b
  | PosInf => false
  end.

Section WithRuntime.
Context {R : Runtime}.

Definition __init__ (problem : Problem.t) (num_iterations : Z) : M World t :=
  let* c := Colony.__init__ problem in
  ret {| num_iterations := num_iterations;
         colony := c;
         best_route := None;
         best_length := PosInf;
         iteration_history := [] |}.

(** [self.colony.run_iteration()] *)
Definition colony_run_iteration : M (t * World) (list nat * efloat) :=
  fun st =>
    let '(r, (c, w')) := Colony.run_iteration (st.1.(colony), st.2) in
    (r, (set_colony st.1 c, w')).

(** The body of the loop of [optimize]. *)
Definition optimize_iteration
    (callback : option (progress -> M World unit)) (iteration : nat)
  : M (t * World) unit :=
  let* found := colony_run_iteration in
  modify (fun st =>
            if efloat_ltb found.2 st.1.(best_length)
            then (set_best st.1 found.2 found.1, st.2)
            else st) ;;
  modify (fun st => (append_history st.1 iteration, st.2)) ;;
  match callback with
  | None => ret tt
  | Some f =>
      fun st =>
        let (r, w') :=
          f (mk_progress iteration st.1.(best_route) st.1.(best_length)
               st.1.(iteration_history)) st.2 in
        (r, (st.1, w'))
  end.

Definition optimize (callback : option (progress -> M World unit))
  : M (t * World) unit :=
  let* n := gets (fun st => st.1.(num_iterations)) in
  for_each (seq 1 (Z.to_nat n)) (optimize_iteration callback).

End WithRuntime.

End Optimization.

(** ** The two lengths on binary64 floats

    [Ant.find_route] and [Problem.get_length] once more, on the floats the
    code computes with: the running total of the ant is a chain of [+=],
    the length of [get_length] an [np.sum], and the two add the same
    numbers in different orders. *)

Module Binary64.

Abbreviation fmatrix := (list (list float)).

(** [m[i, j]] *)
Definition fget (m : fmatrix) (i j : nat) : option float :=
  row ← m !! i; row !! j.

(** [m[i, cols]] *)
Definition fgather (m : fmatrix) (i : nat) (cols : list nat) : option (list float) :=
  row ← m !! i; mapM (fun j => row !! j) cols.

(** *** [np.sum] of a vector of floats

    numpy adds a vector of fewer than 8 elements from left to right.  It
    adds a vector of 8 to 128 elements in eight interleaved partial sums,
    which it then adds in pairs, before the elements past the last full
    group of eight.  It cuts a longer vector in two and adds the two sums.
    The result is added to the identity [0.0] of the reduction. *)

(** The eight partial sums of a block, added in pairs. *)
Definition add8 (r : list float) : float :=
  match r with
  | [r0; r1; r2; r3; r4; r5; r6; r7] =>
      (((r0 + r1) + (r2 + r3)) + ((r4 + r5) + (r6 + r7)))%float
  | _ => nan
  end.

(** [k] further groups of eight elements, each added to its partial sum. *)
Fixpoint accumulate8 (k : nat) (r a : list float) : list float :=
  match k with
  | 0 => r
  | S k' => accumulate8 k' (zip_with PrimFloat.add r (take 8 a)) (drop 8 a)
  end.

Definition block_sum (a : list float) : float :=
  let n := length a in
  fold_left PrimFloat.add (drop (n - n mod 8) a)
    (add8 (accumulate8 (n / 8 - 1) (take 8 a) (drop 8 a))).

(** Where a vector of more than 128 elements is cut in two: at half its
    length, rounded down to a multiple of eight. *)
Definition split_point (n : nat) : nat := n / 2 - (n / 2) mod 8.

Lemma split_point_bounds n : 128 < n -> 0 < split_point n < n.
Proof.
  intros Hn. unfold split_point.
  pose proof (Nat.div_mod_eq n 2).
  pose proof (Nat.mod_upper_bound n 2 ltac:(lia)).
  pose proof (Nat.mod_upper_bound (n / 2) 8 ltac:(lia)).
  lia.
Qed.

Equations? pairwise_sum (a : list float) : float by wf (length a) lt :=
pairwise_sum a with inspect (length a <? 8) := {
  | exist _ true _ => fold_left PrimFloat.add a (-0)%float
  | exist _ false _ with inspect (length a <=? 128) := {
    | exist _ true _ => block_sum a
    | exist _ false Hlong =>
        (pairwise_sum (take (split_point (length a)) a)
         + pairwise_sum (drop (split_point (length a)) a))%float } }.
Proof.
  all: apply Nat.leb_gt, split_point_bounds in Hlong.
  - rewrite length_take. lia.
  - rewrite length_drop. lia.
Qed.

Definition np_sum (a : list float) : float := (0 + pairwise_sum a)%float.

(** [np.argmin] of a vector of floats: the first index of a minimum, a NaN
    counting as the least value. *)
Fixpoint argmin_from (best_i : nat) (best : float) (i : nat) (l : list float) : nat :=
  match l with
  | [] => best_i
  | x :: l' =>
      if (best <=? x)%float then argmin_from best_i best (S i) l'
      else if is_nan x then i
      else argmin_from i x (S i) l'
  end.

Definition np_argmin (l : list float) : option nat :=
  match l with
  | [] => None
  | x :: l' => Some (if is_nan x then 0 else argmin_from 0 x 1 l')
  end.

(** *** Ant.py *)

Record t : Type := mk {
  start_node : nat;
  route : list nat;
  visited : gset nat;
  total_distance : float;
  num_nodes : nat;
  alpha : float;
  beta : float
}.

Definition __init__ (start_node num_nodes : nat) (alpha beta : float) : t :=
  {| start_node := start_node;
     route := [start_node];
     visited := {[ start_node ]};
     total_distance := 0;
     num_nodes := num_nodes;
     alpha := alpha;
     beta := beta |}.

Definition reset (self : t) : t :=
  mk self.(start_node) [self.(start_node)] {[ self.(start_node) ]} 0
     self.(num_nodes) self.(alpha) self.(beta).

(** [self.route.append(n); self.visited.add(n)] *)
Definition visit (self : t) (n : nat) : t :=
  mk self.(start_node) (self.(route) ++ [n]) ({[ n ]} ∪ self.(visited))
     self.(total_distance) self.(num_nodes) self.(alpha) self.(beta).

(** [self.route.append(n)] *)
Definition append_route (self : t) (n : nat) : t :=
  mk self.(start_node) (self.(route) ++ [n]) self.(visited)
     self.(total_distance) self.(num_nodes) self.(alpha) self.(beta).

(** [self.total_distance += d] *)
Definition add_distance (self : t) (d : float) : t :=
  mk self.(start_node) self.(route) self.(visited)
     (self.(total_distance) + d)%float self.(num_nodes) self.(alpha) self.(beta).

Definition available_nodes (self : t) : list nat :=
  filter (fun node => node ∉ self.(visited)) (seq 0 self.(num_nodes)).

Section WithNumpy.
(** The state of the random generator, [x ** y] on floats and
    [np.random.choice(a, p=p)]. *)
Variable W : Type.
Variable float_power : float -> float -> float.
Variable random_choice : list nat -> list float -> W -> result nat * W.

(** [np.where(distances_to_nodes > 0, (1.0 / distances_to_nodes) ** beta, 0)] *)
Definition heuristic_values (self : t) (distances_to_nodes : list float) : list float :=
  map (fun d => if (0 <? d)%float then float_power (1 / d)%float self.(beta)
                else 0%float)
      distances_to_nodes.

(** [pheromone_levels ** self.alpha * heuristic_values] *)
Definition probabilities (self : t) (pheromone_levels heuristics : list float)
  : list float :=
  zip_with (fun p h => (float_power p self.(alpha) * h)%float)
           pheromone_levels heuristics.

Definition _choose_next_node (self : t) (distances pheromones : fmatrix) (w : W)
  : result nat * W :=
  match last self.(route) with
  | None => (Raise IndexError, w)
  | Some current_node =>
      let available := available_nodes self in
      match fgather pheromones current_node available with
      | None => (Raise IndexError, w)
      | Some pheromone_levels =>
          match fgather distances current_node available with
          | None => (Raise IndexError, w)
          | Some distances_to_nodes =>
              let probs :=
                probabilities self pheromone_levels
                  (heuristic_values self distances_to_nodes) in
              if (np_sum probs =? 0)%float then
                match np_argmin distances_to_nodes with
                | None => (Raise ValueError, w)
                | Some k => (of_option IndexError (available !! k), w)
                end
              else
                random_choice available
                  (map (fun p => (p / np_sum probs)%float) probs) w
          end
      end
  end.

(** One turn of the loop of [find_route]. *)
Definition visit_next (distances pheromones : fmatrix) (st : t * W)
  : result unit * (t * W) :=
  match _choose_next_node st.1 distances pheromones st.2 with
  | (Raise e, w') => (Raise e, (st.1, w'))
  | (Ok next_node, w') =>
      match last st.1.(route) with
      | None => (Raise IndexError, (st.1, w'))
      | Some current_node =>
          let self := visit st.1 next_node in
          match fget distances current_node next_node with
          | None => (Raise IndexError, (self, w'))
          | Some d => (Ok tt, (add_distance self d, w'))
          end
      end
  end.

(** [while len(self.route) < self.num_nodes: ...].  A turn that does not
    raise appends one node, so the loop makes [num_nodes - len(route)]
    turns, the number the recursion counts down. *)
Fixpoint while_unvisited (turns : nat) (distances pheromones : fmatrix) (st : t * W)
  : result unit * (t * W) :=
  match turns with
  | 0 => (Ok tt, st)
  | S turns' =>
      match visit_next distances pheromones st with
      | (Ok _, st') => while_unvisited turns' distances pheromones st'
      | (Raise e, st') => (Raise e, st')
      end
  end.

Definition find_route (self : t) (distances pheromones : fmatrix) (w : W)
  : result unit * (t * W) :=
  let self0 := reset self in
  match while_unvisited (self0.(num_nodes) - length self0.(route))
          distances pheromones (self0, w) with
  | (Raise e, st) => (Raise e, st)
  | (Ok _, (self1, w1)) =>
      let self2 := append_route self1 self1.(start_node) in
      match last self1.(route) with
      | None => (Raise IndexError, (self2, w1))
      | Some previous =>
          match fget distances previous self1.(start_node) with
          | None => (Raise IndexError, (self2, w1))
          | Some d => (Ok tt, (add_distance self2 d, w1))
          end
      end
  end.

End WithNumpy.

(** *** Problem.py *)

(** [self.distances[route[:-1], route[1:]]] *)
Definition edge_lengths (d : fmatrix) (route : list nat) : option (list float) :=
  mapM (fun e : nat * nat => fget d e.1 e.2) (zip (removelast route) (tail route)).

(** [get_length], of a problem with the given [self.distances]. *)
Definition get_length (distances : option fmatrix) (route : list nat) : result float :=
  match route, distances with
  | [], _ => Ok 0%float
  | _, None => Ok 0%float
  | first :: _, Some d =>
      match edge_lengths d route with
      | None => Raise IndexError
      | Some ls =>
          let total_length := np_sum ls in
          match fget d (List.last route first) first with
          | None => Raise IndexError
          | Some closing => Ok (total_length + closing)%float
          end
      end
  end.

(** *** Ten nodes *)

(** The float [0.1]. *)
Definition tenth : float := 0x1.999999999999ap-4%float.

(** The float [0.9999999999999999], the greatest below [1.0]. *)
Definition below_one : float := 0x1.fffffffffffffp-1%float.

(** Ten nodes at distance [0.1] of one another. *)
Definition d10 : fmatrix :=
  map (fun i => map (fun j => if decide (i = j) then 0%float else tenth) (seq 0 10))
      (seq 0 10).

(** No pheromone on any edge, as [evaporate(1.0)] leaves the field. *)
Definition no_pheromone : fmatrix := replicate 10 (replicate 10 0%float).

(** [x ** 1.0], which is [x]; the exponents of the ant below are [1.0]. *)
Definition power_of_one (x y : float) : float :=
  if (y =? 1)%float then x else nan.

(** With no pheromone the next node is never drawn. *)
Definition no_draw (a : list nat) (p : list float) (w : unit) : result nat * unit :=
  (Raise ValueError, w).

Definition ant10 : t := __init__ 0 10 1 1.

End Binary64.

(** ** A concrete runtime, for running the model *)

Module Demo.

(** The world is a counter: it seeds the draws and is the clock. *)
Definition demo_choice (a : list nat) (p : list Q) (w : nat) : result nat * nat :=
  match a !! (w mod length a) with
  | Some n => (Ok n, S w)
  | None => (Raise ValueError, w)
  end.

Definition demo_randint (a b : Z) (w : nat) : result Z * nat :=
  if (a <=? b)%Z then (Ok (a + Z.of_nat w mod (b - a + 1))%Z, S w)
  else (Raise ValueError, w).

(** The unit square of the scenario in section 8 of the specification. *)
Definition unit_square : list node :=
  [mk_node 1 0 0; mk_node 2 1 0; mk_node 3 1 1; mk_node 4 0 1].

(** Powers with the exponent truncated to an integer, the square root
    rounded down to an integer, and sums taken from left to right. *)
#[export] Instance demo_runtime : Runtime := {|
  World := nat;
  np_power := fun x y => Qpower x (Qnum y / Zpos (Qden y));
  np_sqrt := fun x => inject_Z (Z.sqrt (Qnum x / Zpos (Qden x)));
  np_sum := fun l => fold_left Qplus l 0%Q;
  np_random_choice := demo_choice;
  random_randint := demo_randint;
  time_time := fun w => (inject_Z (Z.of_nat w), S w);
  load_nodes := fun _ w => (Ok (Some unit_square), w)
|}.

#[export] Instance demo_runtime_laws : RuntimeLaws demo_runtime.
Proof.
  split.
  - intros a p w n w'. simpl. unfold demo_choice.
    destruct (a !! (w mod length a)) as [x|] eqn:Hx; [|discriminate].
    intros [= <- <-]. by eapply list_elem_of_lookup_2.
  - intros a b w n w'. simpl. unfold demo_randint.
    destruct (a <=? b)%Z eqn:Hab; [|discriminate].
    intros [= <- <-]. apply Z.leb_le in Hab.
    pose proof (Z.mod_pos_bound (Z.of_nat w) (b - a + 1)). lia.
Qed.

(** The same runtime over a problem file without node rows. *)
Definition rowless_runtime : Runtime := {|
  World := nat;
  np_power := np_power (Runtime := demo_runtime);
  np_sqrt := np_sqrt (Runtime := demo_runtime);
  np_sum := np_sum (Runtime := demo_runtime);
  np_random_choice := demo_choice;
  random_randint := demo_randint;
  time_time := time_time (Runtime := demo_runtime);
  load_nodes := fun _ w => (Ok (Some []), w)
|}.

(** Three nodes at pairwise distances 1, 2, 3. *)
Definition d3 : matrix := [[0; 1; 2]; [1; 0; 3]; [2; 3; 0]]%Q.

Definition p3 : Pheromone.t := Pheromone.__init__ 3 (1 # 2) 100.

Definition ant0 : Ant.t := Ant.__init__ 0 3 1 2.

End Demo.

(** ** Reachable pheromone fields *)

(** The states of a pheromone field: the initial one, and those reached
    from it by calls of [evaporate] and [deposit] (a call of [deposit] that
    raises leaves the state it had reached). *)
Inductive reachable : Pheromone.t -> Prop :=
| reachable_init n rate amount :
    reachable (Pheromone.__init__ n rate amount)
| reachable_evaporate p rate :
    reachable p -> reachable (Pheromone.evaporate p rate)
| reachable_deposit p route length amount :
    reachable p -> reachable (Pheromone.deposit p route length amount).2.

(** An [n] by [n] matrix. *)
Definition square (n : nat) (m : matrix) : Prop :=
  length m = n /\ Forall (fun row => length row = n) m.

(** [field[i][j] == field[j][i]] for all [i], [j]. *)
Definition symmetric (m : matrix) : Prop :=
  forall i j, mget m i j = mget m j i.

(** What holds of an ant all along [find_route]: its route has no repeated
    node, lists exactly the visited nodes, which are nodes of the graph, and
    starts at the start node. *)
Definition route_inv (a : Ant.t) : Prop :=
  NoDup a.(Ant.route) /\
  (forall x, x ∈ a.(Ant.route) <-> x ∈ a.(Ant.visited)) /\
  (forall x, x ∈ a.(Ant.route) -> x < a.(Ant.num_nodes)) /\
  head a.(Ant.route) = Some a.(Ant.start_node).

(** [total = 0.0] followed by [total += x] for each [x] of the list, from
    left to right. *)
Definition running_total (ls : list Q) : Q := fold_left Qplus ls 0%Q.

(** The running total of an ant is made of the edges of its route, added
    in the order of the route. *)
Definition distance_inv (d : matrix) (a : Ant.t) : Prop :=
  head a.(Ant.route) = Some a.(Ant.start_node) /\
  exists ls, Problem.edge_lengths d a.(Ant.route) = Some ls /\
             a.(Ant.total_distance) = running_total ls.

(** A tracked best solution [new] is [old] itself or strictly shorter. *)
Definition improves {A} (old new : A * efloat) : Prop :=
  new = old \/ efloat_lt new.2 old.2.

(** The best solution of a colony and of the driver. *)
Definition colony_best (c : Colony.t) : list nat * efloat :=
  (c.(Colony.best_route), c.(Colony.best_length)).

Definition driver_best (o : Optimization.t) : option (list nat) * efloat :=
  (o.(Optimization.best_route), o.(Optimization.best_length)).

(** Neither the driver's best solution nor the colony's regresses from
    [old] to [new]. *)
Definition never_regresses (old new : Optimization.t) : Prop :=
  improves (driver_best old) (driver_best new) /\
  improves (colony_best old.(Optimization.colony))
           (colony_best new.(Optimization.colony)).

(** Every run of [m] relates the state before to the state after, also
    when it raises. *)
Definition preserves {S A} (rel : S -> S -> Prop) (m : M S A) : Prop :=
  forall s, rel s (m s).2.

(** The sampler answers whenever it is given a candidate. *)
Definition sampler_total (R : Runtime) : Prop :=
  forall a p w, a <> [] -> exists n w', np_random_choice a p w = (Ok n, w').

(** How often [deposit] writes the entry [(a, b)] for the edge [e]: once as
    [(i, j)], once as [(j, i)]. *)
Definition edge_hits (e : nat * nat) (a b : nat) : nat :=
  (if decide (e = (a, b)) then 1 else 0) + (if decide (e = (b, a)) then 1 else 0).

Fixpoint hits (edges : list (nat * nat)) (a b : nat) : nat :=
  match edges with
  | [] => 0
  | e :: rest => hits rest a b + edge_hits e a b
  end.

(** The edges [deposit] walks: the consecutive ones, then the closing edge
    when the route does not already end where it starts. *)
Definition deposited_edges (route : list nat) : list (nat * nat) :=
  Pheromone.consecutive route ++
  match head route, last route with
  | Some first, Some final => if decide (first = final) then [] else [(final, first)]
  | _, _ => []
  end.

(** What the distance matrix needs of [np.sqrt]: equal arguments give
    equal roots, the root of zero is zero, and no root is negative. *)
Definition sqrt_laws (R : Runtime) : Prop :=
  (forall x y, (x == y)%Q -> (np_sqrt x == np_sqrt y)%Q) /\
  (np_sqrt 0 == 0)%Q /\
  (forall x, (0 <= np_sqrt x)%Q).

(** The order [sorted] sorts the ants by. *)
Definition no_longer_than (a b : Ant.t) : Prop :=
  (a.(Ant.total_distance) <= b.(Ant.total_distance))%Q.

(** The ants of total distance [v], in the order of the list. *)
Definition ants_of_distance (v : Q) (l : list Ant.t) : list Ant.t :=
  List.filter (fun a => Qeq_bool a.(Ant.total_distance) v) l.

(** The best length of a colony, once finite, is the tour length of its
    best route. *)
Definition best_consistent `{R : Runtime} (c : Colony.t) : Prop :=
  forall len,
    c.(Colony.best_length) = Finite len ->
    Problem.get_length c.(Colony.problem) c.(Colony.best_route) = Ok len.

(** An ant as [reset] leaves it: at its start node, with no distance. *)
Definition is_reset (a : Ant.t) : Prop :=
  a.(Ant.route) = [a.(Ant.start_node)] /\
  a.(Ant.visited) = {[ a.(Ant.start_node) ]} /\
  a.(Ant.total_distance) = 0%Q.

(** A problem and a colony on the unit square, with three ants. *)
Definition demo_problem : Problem.t :=
  Problem.mk "square" "Problems/square.tsp" (Some Demo.unit_square)
    (Some (Problem.compute_distance_matrix (R := Demo.demo_runtime) Demo.unit_square))
    0 3 1 2 (1 # 2) 100.

Definition demo_colony : Colony.t :=
  Colony.mk demo_problem 4 (Pheromone.__init__ 4 (1 # 2) 100)
    [Ant.__init__ 0 4 1 2; Ant.__init__ 1 4 1 2; Ant.__init__ 2 4 1 2]
    (seq 0 4) PosInf 0 0 [] 0 0 None.

(** What the route-building part of an iteration leaves alone: the
    counters, the history, the clock readings and the number of ants. *)
Definition same_bookkeeping `{R : Runtime} (s s' : Colony.t * World) : Prop :=
  s'.1.(Colony.current_iteration) = s.1.(Colony.current_iteration) /\
  s'.1.(Colony.iteration_history) = s.1.(Colony.iteration_history) /\
  s'.1.(Colony.total_time_ms) = s.1.(Colony.total_time_ms) /\
  s'.1.(Colony._start_time) = s.1.(Colony._start_time) /\
  length s'.1.(Colony.ants) = length s.1.(Colony.ants).

(** The driver's best solution is the colony's: the same length, and the
    same route once one has been found. *)
Definition driver_in_step (o : Optimization.t) : Prop :=
  o.(Optimization.best_length) = o.(Optimization.colony).(Colony.best_length) /\
  (forall x, o.(Optimization.best_length) = Finite x ->
             o.(Optimization.best_route)
             = Some o.(Optimization.colony).(Colony.best_route)).

(** The recorded best lengths never grow along the history. *)
Definition non_increasing (entries : list Optimization.history_entry) : Prop :=
  StronglySorted
    (fun a b => efloat_le b.(Optimization.entry_best_length)
                          a.(Optimization.entry_best_length))
    entries.

(** A driver on the demo colony. *)
Definition demo_driver : Optimization.t :=
  Optimization.mk 3 demo_colony None PosInf [].

(** The lines of a problem file up to its first [EOF] line. *)
Fixpoint until_eof (lines : list string) : list string :=
  match lines with
  | [] => []
  | line :: rest => if decide (line = "EOF") then [] else line :: until_eof rest
  end.

(** The lines that follow the first [NODE_COORD_SECTION] line. *)
Fixpoint after_section (lines : list string) : list string :=
  match lines with
  | [] => []
  | line :: rest =>
      if decide (line = "NODE_COORD_SECTION") then rest else after_section rest
  end.

(** The node lines of a file: the stripped lines between the first
    [NODE_COORD_SECTION] line and the first [EOF] line, without the further
    [NODE_COORD_SECTION] lines among them. *)
Definition node_lines (str_strip : string -> string) (lines : list string)
  : list string :=
  filter (fun line => line <> "NODE_COORD_SECTION")
         (after_section (until_eof (map str_strip lines))).

(** The rows of the given lines in order, or the first error of a line. *)
Fixpoint parse_all (parse_row : string -> result node) (rows : list string)
  : result (list node) :=
  match rows with
  | [] => Ok []
  | row :: rest =>
      match parse_row row with
      | Raise e => Raise e
      | Ok n =>
          match parse_all parse_row rest with
          | Raise e => Raise e
          | Ok ns => Ok (n :: ns)
          end
      end
  end.

(** The rows read so far, followed by the rows still to come. *)
Definition prepend (acc : list node) (r : result (list node)) : result (list node) :=
  match r with
  | Raise e => Raise e
  | Ok ns => Ok (acc ++ ns)
  end.

(** What holds of an ant on floats all along [find_route]: its running
    total is made of the edges of its route, added from left to right. *)
Definition binary64_total (d : Binary64.fmatrix) (a : Binary64.t) : Prop :=
  head a.(Binary64.route) = Some a.(Binary64.start_node) /\
  exists ls, Binary64.edge_lengths d a.(Binary64.route) = Some ls /\
             a.(Binary64.total_distance) = fold_left PrimFloat.add ls 0%float.

(** * Properties *)

(** ** Comparisons on floats *)

Lemma Qlt_bool_iff x y : Qlt_bool x y = true <-> (x < y)%Q.
Proof.
  unfold Qlt_bool. rewrite negb_true_iff, <- not_true_iff_false, Qle_bool_iff.
  split; [apply Qnot_le_lt | apply Qlt_not_le].
Qed.

Lemma Qlt_bool_false x y : Qlt_bool x y = false <-> (y <= x)%Q.
Proof.
  unfold Qlt_bool. rewrite negb_false_iff. apply Qle_bool_iff.
Qed.

Lemma clip_unit_interval r : (clip r 0 1 == Qmax 0 (Qmin r 1))%Q.
Proof.
  unfold clip.
  destruct (Qlt_bool r 0) eqn:H0.
  - apply Qlt_bool_iff in H0.
    rewrite Q.max_l; [reflexivity|].
    apply (Qle_trans _ r); [apply Q.le_min_l | by apply Qlt_le_weak].
  - apply Qlt_bool_false in H0.
    destruct (Qlt_bool 1 r) eqn:H1.
    + apply Qlt_bool_iff in H1.
      rewrite Q.min_r by (by apply Qlt_le_weak). by rewrite Q.max_r.
    + apply Qlt_bool_false in H1.
      rewrite Q.min_l by done. by rewrite Q.max_r.
Qed.

(** ** Matrices *)

Lemma lookup_map {A B} (f : A -> B) (l : list A) i :
  map f l !! i = f <$> l !! i.
Proof. revert i. induction l as [|a l IH]; intros [|i]; simpl; auto. Qed.

Lemma mget_map f m i j :
  mget (map (map f) m) i j = f <$> mget m i j.
Proof.
  unfold mget. rewrite lookup_map.
  destruct (m !! i) as [row|]; simpl; [apply lookup_map | reflexivity].
Qed.

Lemma mget_np_full n x i j :
  mget (np_full n x) i j =
  if decide (i < n /\ j < n) then Some x else None.
Proof.
  unfold mget, np_full.
  destruct (decide (i < n)) as [Hi|Hi].
  - rewrite lookup_replicate_2 by done. simpl.
    destruct (decide (j < n)) as [Hj|Hj].
    + rewrite lookup_replicate_2 by done. by rewrite decide_True.
    + rewrite (proj1 (lookup_replicate_None _ _ _)) by lia. rewrite decide_False; [done|lia].
  - rewrite (proj1 (lookup_replicate_None _ _ _)) by lia. simpl.
    rewrite decide_False; [done|lia].
Qed.

Lemma square_np_full n x : square n (np_full n x).
Proof.
  split; [apply length_replicate|].
  apply Forall_forall. intros row Hrow.
  apply elem_of_replicate in Hrow as [-> _]. apply length_replicate.
Qed.

Lemma square_map f n m : square n m -> square n (map (map f) m).
Proof.
  intros [Hl Hr]. split; [by rewrite length_map|].
  apply Forall_forall. intros row Hrow.
  apply list_elem_of_In, in_map_iff in Hrow as (row0 & <- & Hin).
  rewrite length_map. rewrite Forall_forall in Hr. apply Hr.
  by apply list_elem_of_In.
Qed.

Lemma mget_is_Some n m i j :
  square n m -> is_Some (mget m i j) <-> i < n /\ j < n.
Proof.
  intros [Hl Hr]. unfold mget. split.
  - intros [x Hx]. destruct (m !! i) as [row|] eqn:Hrow; [|done].
    simpl in Hx. split.
    + apply lookup_lt_Some in Hrow. lia.
    + rewrite Forall_forall in Hr.
      assert (length row = n) as <- by (apply Hr; eapply list_elem_of_lookup_2; eauto).
      by apply lookup_lt_Some in Hx.
  - intros [Hi Hj].
    destruct (lookup_lt_is_Some_2 m i) as [row Hrow]; [lia|].
    rewrite Hrow. simpl. apply lookup_lt_is_Some_2.
    rewrite Forall_forall in Hr.
    rewrite (Hr row); [done|]. eapply list_elem_of_lookup_2; eauto.
Qed.

Lemma madd_is_Some n m i j d :
  square n m -> is_Some (madd m i j d) <-> i < n /\ j < n.
Proof.
  intros Hsq. rewrite <- (mget_is_Some n m i j Hsq).
  unfold madd, mget.
  destruct (m !! i) as [row|]; simpl; [|done].
  destruct (row !! j); simpl; split; intros [? ?]; eauto; done.
Qed.

Lemma madd_square n m i j d m' :
  square n m -> madd m i j d = Some m' -> square n m'.
Proof.
  intros [Hl Hr] H. unfold madd in H.
  destruct (m !! i) as [row|] eqn:Hrow; [|done]. simpl in H.
  destruct (row !! j) as [x|]; [|done]. simpl in H. injection H as <-.
  split; [by rewrite length_insert|].
  apply Forall_insert; [done|]. rewrite length_insert.
  rewrite Forall_forall in Hr. apply Hr. eapply list_elem_of_lookup_2; eauto.
Qed.

Lemma mget_madd m i j d m' a b :
  madd m i j d = Some m' ->
  mget m' a b =
  if decide (a = i /\ b = j) then (fun x => (x + d)%Q) <$> mget m a b
  else mget m a b.
Proof.
  intros H. unfold madd in H.
  destruct (m !! i) as [row|] eqn:Hrow; [|done]. simpl in H.
  destruct (row !! j) as [x|] eqn:Hx; [|done]. simpl in H. injection H as <-.
  unfold mget.
  destruct (decide (a = i)) as [->|Hai].
  - rewrite list_lookup_insert_eq by (by eapply lookup_lt_Some).
    rewrite Hrow. simpl.
    destruct (decide (b = j)) as [->|Hbj].
    + rewrite list_lookup_insert_eq by (by eapply lookup_lt_Some).
      rewrite decide_True by done. by rewrite Hx.
    + rewrite list_lookup_insert_ne by done.
      rewrite decide_False; [done|]. intros [_ ?]. done.
  - rewrite list_lookup_insert_ne by done.
    rewrite decide_False; [done|]. intros [? _]. done.
Qed.

(** ** The pheromone field *)

Lemma deposit_edge_square n d m i j :
  square n m -> square n (Pheromone.deposit_edge d m i j).2.
Proof.
  intros Hsq. unfold Pheromone.deposit_edge.
  destruct (madd m i j d) as [m1|] eqn:H1; [|done].
  pose proof (madd_square _ _ _ _ _ _ Hsq H1) as Hsq1.
  destruct (madd m1 j i d) as [m2|] eqn:H2; [|done].
  simpl. eapply madd_square; eauto.
Qed.

(** An edge is deposited on both of its entries or on neither. *)
Lemma deposit_edge_symmetric n d m i j :
  square n m -> symmetric m -> symmetric (Pheromone.deposit_edge d m i j).2.
Proof.
  intros Hsq Hsym. unfold Pheromone.deposit_edge.
  destruct (madd m i j d) as [m1|] eqn:H1; [|done].
  pose proof (madd_square _ _ _ _ _ _ Hsq H1) as Hsq1.
  assert (i < n /\ j < n) as [Hi Hj]
    by (apply (madd_is_Some n m i j d Hsq); eauto).
  destruct (madd_is_Some n m1 j i d Hsq1) as [_ Hsome].
  destruct Hsome as [m2 H2]; [done|]. rewrite H2. simpl.
  intros a b.
  rewrite !(mget_madd _ _ _ _ _ _ _ H2), !(mget_madd _ _ _ _ _ _ _ H1).
  rewrite (Hsym a b).
  repeat case_decide; try reflexivity; exfalso; intuition congruence.
Qed.

Lemma deposit_edges_square n d edges m :
  square n m -> square n (Pheromone.deposit_edges d m edges).2.
Proof.
  revert m. induction edges as [|[i j] rest IH]; intros m Hsq; [done|].
  simpl.
  pose proof (deposit_edge_square n d m i j Hsq) as Hsq'.
  destruct (Pheromone.deposit_edge d m i j) as [[[]|e] m']; simpl in *; auto.
Qed.

Lemma deposit_edges_symmetric n d edges m :
  square n m -> symmetric m ->
  symmetric (Pheromone.deposit_edges d m edges).2.
Proof.
  revert m. induction edges as [|[i j] rest IH]; intros m Hsq Hsym; [done|].
  simpl.
  pose proof (deposit_edge_square n d m i j Hsq) as Hsq'.
  pose proof (deposit_edge_symmetric n d m i j Hsq Hsym) as Hsym'.
  destruct (Pheromone.deposit_edge d m i j) as [[[]|e] m']; simpl in *; auto.
Qed.

Lemma deposit_invariant n p route length amount :
  square n p.(Pheromone.trails) -> symmetric p.(Pheromone.trails) ->
  square n (Pheromone.deposit p route length amount).2.(Pheromone.trails) /\
  symmetric (Pheromone.deposit p route length amount).2.(Pheromone.trails).
Proof.
  intros Hsq Hsym. unfold Pheromone.deposit.
  destruct (Qeq_bool length 0); [done|].
  set (d := (_ / length)%Q).
  pose proof (deposit_edges_square n d (Pheromone.consecutive route) _ Hsq)
    as Hsq'.
  pose proof (deposit_edges_symmetric n d (Pheromone.consecutive route) _ Hsq Hsym)
    as Hsym'.
  destruct (Pheromone.deposit_edges d _ _) as [[[]|e] m]; simpl in *; [|done].
  destruct (head route) as [first|]; [|done].
  destruct (last route) as [final|]; [|done].
  case_decide; [done|].
  pose proof (deposit_edge_square n d m final first Hsq').
  pose proof (deposit_edge_symmetric n d m final first Hsq' Hsym').
  destruct (Pheromone.deposit_edge d m final first); done.
Qed.

Lemma reachable_invariant p :
  reachable p ->
  exists n, square n p.(Pheromone.trails) /\ symmetric p.(Pheromone.trails).
Proof.
  induction 1 as [n rate amount|p rate _ [n [Hsq Hsym]]
                 |p route length amount _ [n [Hsq Hsym]]].
  - exists n. split; [apply square_np_full|].
    intros i j. simpl. rewrite !mget_np_full.
    repeat case_decide; try reflexivity; exfalso; intuition.
  - exists n. simpl. split; [by apply square_map|].
    intros i j. by rewrite !mget_map, Hsym.
  - exists n. by apply deposit_invariant.
Qed.

(** C5. The pheromone matrix is symmetric in every reachable state: from
    the uniform initial matrix, after any sequence of [evaporate] and
    [deposit] calls, [field[i][j]] equals [field[j][i]] for all [i], [j]. *)
Theorem C5_pheromone_symmetry p :
  reachable p ->
  forall i j, mget p.(Pheromone.trails) i j = mget p.(Pheromone.trails) j i.
Proof.
  intros Hp. destruct (reachable_invariant p Hp) as [n [_ Hsym]]. exact Hsym.
Qed.

Lemma C5_pheromone_symmetry_witness :
  let p :=
    (Pheromone.deposit
       (Pheromone.evaporate (Pheromone.__init__ 3 (1 # 2) 100) (Some (3 # 10)))
       [0; 1; 2; 0] 6 None).2 in
  mget p.(Pheromone.trails) 0 1 = Some (10042 # 600)%Q /\
  forall i j, mget p.(Pheromone.trails) i j = mget p.(Pheromone.trails) j i.
Proof.
  split; [vm_compute; reflexivity|].
  apply C5_pheromone_symmetry. repeat constructor.
Defined.

(** C6. For every rate [r], also out of range, [evaporate(r)] multiplies
    every entry of the matrix by [1 - clamp(r, 0, 1)]; [evaporate(1.0)] sets
    every entry to zero. *)
Theorem C6_evaporation_law (p : Pheromone.t) (r : Q) :
  (forall i j,
     mget (Pheromone.evaporate p (Some r)).(Pheromone.trails) i j =
     (fun x => (x * (1 - clip r 0 1))%Q) <$> mget p.(Pheromone.trails) i j) /\
  (clip r 0 1 == Qmax 0 (Qmin r 1))%Q /\
  Forall (Forall (fun x => (x == 0)%Q))
    (Pheromone.evaporate p (Some 1%Q)).(Pheromone.trails).
Proof.
  split; [|split].
  - intros i j. simpl. apply mget_map.
  - apply clip_unit_interval.
  - simpl. apply Forall_forall. intros row Hrow.
    apply list_elem_of_In, in_map_iff in Hrow as (row0 & <- & _).
    apply Forall_forall. intros x Hx.
    apply list_elem_of_In, in_map_iff in Hx as (x0 & <- & _).
    change (clip 1 0 1) with 1%Q. ring.
Qed.

Lemma Qeq_bool_false x y : Qeq_bool x y = false <-> ~ (x == y)%Q.
Proof.
  rewrite <- not_true_iff_false. by rewrite Qeq_bool_iff.
Qed.

Lemma deposit_edge_Ok n d m i j :
  square n m -> i < n -> j < n -> (Pheromone.deposit_edge d m i j).1 = Ok tt.
Proof.
  intros Hsq Hi Hj. unfold Pheromone.deposit_edge.
  destruct (madd_is_Some n m i j d Hsq) as [_ [m1 H1]]; [done|]. rewrite H1.
  pose proof (madd_square _ _ _ _ _ _ Hsq H1) as Hsq1.
  destruct (madd_is_Some n m1 j i d Hsq1) as [_ [m2 H2]]; [done|]. by rewrite H2.
Qed.

Lemma deposit_edges_Ok n d edges m :
  square n m -> Forall (fun e : nat * nat => e.1 < n /\ e.2 < n) edges ->
  (Pheromone.deposit_edges d m edges).1 = Ok tt.
Proof.
  revert m. induction edges as [|[i j] rest IH]; intros m Hsq Hin; [done|].
  apply Forall_cons in Hin as [[Hi Hj] Hrest]. simpl in *.
  pose proof (deposit_edge_Ok n d m i j Hsq Hi Hj) as HOk.
  pose proof (deposit_edge_square n d m i j Hsq) as Hsq'.
  destruct (Pheromone.deposit_edge d m i j) as [r m']. simpl in *. subst r.
  by apply IH.
Qed.

Lemma removelast_take {A} (l : list A) : removelast l = take (length l - 1) l.
Proof. rewrite removelast_firstn_len. by rewrite Nat.sub_1_r. Qed.

Lemma consecutive_in_range n route :
  Forall (fun x => x < n) route ->
  Forall (fun e : nat * nat => e.1 < n /\ e.2 < n) (Pheromone.consecutive route).
Proof.
  intros Hroute. rewrite Forall_forall in Hroute.
  apply Forall_forall. intros [i j] Hin. unfold Pheromone.consecutive in Hin.
  simpl. split; apply Hroute.
  - apply elem_of_zip_l in Hin. rewrite removelast_take in Hin.
    by apply subseteq_take in Hin.
  - apply elem_of_zip_r in Hin. destruct route; [done|]. simpl in Hin.
    by right.
Qed.

(** C3, as the code has it.  [deposit] validates nothing.  A zero length
    makes the division raise [ZeroDivisionError] before any entry is
    written, so the field is unchanged; a negative length is accepted, and
    on a route of valid nodes the call returns normally. *)
Theorem C3_deposit_zero_or_negative_length
    (p : Pheromone.t) (route : list nat) (length : Q) (amount : option Q) :
  ((length == 0)%Q ->
   Pheromone.deposit p route length amount = (Raise ZeroDivisionError, p)) /\
  ((length < 0)%Q ->
   forall n, square n p.(Pheromone.trails) -> route <> [] ->
             Forall (fun x => x < n) route ->
             (Pheromone.deposit p route length amount).1 = Ok tt).
Proof.
  split.
  - intros H0. unfold Pheromone.deposit.
    by rewrite (proj2 (Qeq_bool_iff length 0) H0).
  - intros Hneg n Hsq Hne Hroute. unfold Pheromone.deposit.
    rewrite (proj2 (Qeq_bool_false length 0)); [|by apply Qlt_not_eq].
    set (d := (_ / length)%Q).
    pose proof (deposit_edges_Ok n d _ _ Hsq (consecutive_in_range n route Hroute)) as HOk.
    pose proof (deposit_edges_square n d (Pheromone.consecutive route)
                  p.(Pheromone.trails) Hsq) as Hsq'.
    destruct (Pheromone.deposit_edges d _ _) as [r m].
    simpl fst in HOk. simpl snd in Hsq'. subst r.
    destruct (head route) as [first|] eqn:Hhead;
      [|by destruct route].
    destruct (last route) as [final|] eqn:Hlast;
      [|by apply last_None in Hlast].
    destruct (decide (first = final)); [done|].
    rewrite Forall_forall in Hroute.
    pose proof (deposit_edge_Ok n d m final first Hsq') as HOk'.
    destruct (Pheromone.deposit_edge d m final first) as [r' m'].
    apply HOk'; apply Hroute.
    + by apply last_Some_elem_of.
    + apply head_Some_elem_of. done.
Qed.

(** C3 fails as stated: with the negative length [-3] the call
    [deposit([0, 1, 2, 0], -3.0, 1.0)] raises nothing and lowers the entry of
    the edge (0, 1) from 1/10 to 1/10 - 1/3. *)
Lemma C3_negative_length_accepted :
  (Pheromone.deposit Demo.p3 [0; 1; 2; 0] (-3) (Some 1%Q)).1 = Ok tt /\
  mget Demo.p3.(Pheromone.trails) 0 1 = Some (1 # 10)%Q /\
  mget (Pheromone.deposit Demo.p3 [0; 1; 2; 0] (-3) (Some 1%Q)).2.(Pheromone.trails) 0 1
  = Some (-7 # 30)%Q.
Proof. vm_compute. auto. Qed.

(** An explicit amount of zero is falsy for [or], so the default is used. *)
Lemma deposit_zero_amount_is_default p route length :
  Pheromone.deposit p route length (Some 0%Q) = Pheromone.deposit p route length None.
Proof. reflexivity. Qed.

(** C4 at the amount [0.0]: on the 3-node field with default amount 100,
    [deposit([0, 1, 2, 0], 3.0, 0.0)] raises the entry of the edge (0, 1)
    from 1/10 to 1/10 + 100/3, exactly as the call without an amount does,
    where the claim asks for an increase of 0/3. *)
Theorem C4_deposit_zero_amount :
  mget Demo.p3.(Pheromone.trails) 0 1 = Some (1 # 10)%Q /\
  mget (Pheromone.deposit Demo.p3 [0; 1; 2; 0] 3 (Some 0%Q)).2.(Pheromone.trails) 0 1
  = Some (1003 # 30)%Q /\
  Pheromone.deposit Demo.p3 [0; 1; 2; 0] 3 (Some 0%Q)
  = Pheromone.deposit Demo.p3 [0; 1; 2; 0] 3 None.
Proof. vm_compute. auto. Qed.

(** The scenario of the specification, with the non-zero amount [1.0]: the
    three edges grow by 1/3 on both of their entries, the diagonal stays. *)
Example deposit_scenario :
  Pheromone.deposit Demo.p3 [0; 1; 2; 0] 3 (Some 1%Q) =
  (Ok tt,
   Pheromone.mk
     [[1 # 10; 13 # 30; 13 # 30];
      [13 # 30; 1 # 10; 13 # 30];
      [13 # 30; 13 # 30; 1 # 10]]%Q (1 # 2) 100).
Proof. vm_compute. reflexivity. Qed.

(** ** Tour length *)

(** C8. [get_length] of an empty route returns 0 and does not raise. *)
Theorem C8_get_length_empty `{R : Runtime} (p : Problem.t) :
  Problem.get_length p [] = Ok 0%Q.
Proof. reflexivity. Qed.

(** ** Construction *)




(** A problem file without node rows: the constructor raises. *)
Example problem_without_rows :
  Problem.__init__ (R := Demo.rowless_runtime) "gr17" 10 1 2 (1 # 2) 100 0%nat
  = (Raise KeyError, 0%nat).
Proof. reflexivity. Qed.

(** ** Choosing the next node *)

Lemma argmin_from_spec l : forall best_i best i,
  (argmin_from best_i best i l = best_i /\
   forall j x, l !! j = Some x -> (best <= x)%Q) \/
  (exists j xk,
     argmin_from best_i best i l = i + j /\ l !! j = Some xk /\
     (xk < best)%Q /\
     (forall j' x, l !! j' = Some x -> (xk <= x)%Q) /\
     (forall j' x, l !! j' = Some x -> j' < j -> (xk < x)%Q)).
Proof.
  induction l as [|x l IH]; intros best_i best i; simpl.
  - left. split; [reflexivity|]. intros j y Hj. done.
  - destruct (Qlt_bool x best) eqn:Hlt.
    + apply Qlt_bool_iff in Hlt. right.
      destruct (IH i x (S i)) as [[Hk Hall]|(j & xk & Hk & Hj & Hxk & Hall & Hbefore)].
      * exists 0, x. rewrite Hk. repeat split; [lia|done|..].
        -- intros [|j'] y Hy; simpl in Hy; [injection Hy as <-; apply Qle_refl|eauto].
        -- intros j' y _ Hj'. lia.
      * exists (S j), xk. rewrite Hk. repeat split; [lia|done|..].
        -- by apply (Qlt_trans _ x).
        -- intros [|j'] y Hy; simpl in Hy;
             [injection Hy as <-; by apply Qlt_le_weak|eauto].
        -- intros [|j'] y Hy Hj'; simpl in Hy; [by injection Hy as <-|].
           apply (Hbefore j'); [done|lia].
    + apply Qlt_bool_false in Hlt.
      destruct (IH best_i best (S i)) as [[Hk Hall]|(j & xk & Hk & Hj & Hxk & Hall & Hbefore)].
      * left. split; [done|].
        intros [|j'] y Hy; simpl in Hy; [by injection Hy as <-|eauto].
      * right. exists (S j), xk. rewrite Hk. repeat split; [lia|done|done|..].
        -- intros [|j'] y Hy; simpl in Hy; [injection Hy as <-|eauto].
           apply Qlt_le_weak. by apply (Qlt_le_trans _ best).
        -- intros [|j'] y Hy Hj'; simpl in Hy.
           ++ injection Hy as <-. by apply (Qlt_le_trans _ best).
           ++ apply (Hbefore j'); [done|lia].
Qed.

(** [np.argmin] returns the first index that holds a minimum. *)
Lemma np_argmin_spec l k :
  np_argmin l = Some k ->
  exists xk, l !! k = Some xk /\
    (forall j x, l !! j = Some x -> (xk <= x)%Q) /\
    (forall j x, l !! j = Some x -> j < k -> (xk < x)%Q).
Proof.
  destruct l as [|x l]; [done|]. simpl. intros [= <-].
  destruct (argmin_from_spec l 0 x 1) as [[-> Hall]|(j & xk & -> & Hj & Hxk & Hall & Hbefore)].
  - exists x. repeat split; [|intros; lia].
    intros [|j] y Hy; simpl in Hy; [injection Hy as <-; apply Qle_refl|eauto].
  - exists xk. repeat split; [done|..].
    + intros [|j'] y Hy; simpl in Hy; [injection Hy as <-; by apply Qlt_le_weak|eauto].
    + intros [|j'] y Hy Hj'; simpl in Hy; [by injection Hy as <-|].
      apply (Hbefore j'); [done|lia].
Qed.

Lemma np_argmin_is_Some l : l <> [] -> is_Some (np_argmin l).
Proof. destruct l; [done|]. simpl. eauto. Qed.

(** Filtering a range keeps it in increasing order. *)
Lemma filter_seq_increasing (P : nat -> Prop) `{forall x, Decision (P x)} n :
  forall a i j x y,
    filter P (seq a n) !! i = Some x -> filter P (seq a n) !! j = Some y ->
    i < j -> x < y.
Proof.
  induction n as [|n IH]; intros a i j x y Hi Hj Hij; [done|].
  simpl in Hi, Hj. rewrite filter_cons in Hi, Hj.
  destruct (decide (P a)); [|eauto].
  destruct j as [|j]; [lia|]. simpl in Hj.
  assert (S a <= y) as Hy.
  { apply list_elem_of_lookup_2, list_elem_of_filter in Hj as [_ Hj].
    apply elem_of_seq in Hj. lia. }
  destruct i as [|i]; simpl in Hi.
  - injection Hi as <-. lia.
  - apply (IH (S a) i j); [done|done|lia].
Qed.

Lemma elem_of_available_nodes (self : Ant.t) n :
  n ∈ Ant.available_nodes self <-> n < self.(Ant.num_nodes) /\ n ∉ self.(Ant.visited).
Proof.
  unfold Ant.available_nodes. rewrite list_elem_of_filter, elem_of_seq.
  intuition lia.
Qed.

Lemma mgather_lookup m i cols vals k c :
  mgather m i cols = Some vals -> cols !! k = Some c ->
  exists v, vals !! k = Some v /\ mget m i c = Some v.
Proof.
  unfold mgather, mget. intros H Hc.
  destruct (m !! i) as [row|]; [|done]. simpl in *.
  apply mapM_Some in H.
  destruct (Forall2_lookup_l _ _ _ _ _ H Hc) as (v & Hv & Hrow). eauto.
Qed.

Lemma mgather_length m i cols vals :
  mgather m i cols = Some vals -> length vals = length cols.
Proof.
  unfold mgather. intros H.
  destruct (m !! i) as [row|]; [|done]. simpl in *.
  apply mapM_Some in H. symmetry. by eapply Forall2_length.
Qed.

(** C7. When the selection weights of the unvisited candidates sum to
    zero, the next node is the unvisited node nearest to the current one by
    raw distance, the lowest index among equally near ones; the result does
    not depend on the random state, which is left as it was. *)
Theorem C7_fallback_deterministic `{R : Runtime}
    (self : Ant.t) (distances pheromones : matrix)
    (current : nat) (levels dists : list Q) :
  last self.(Ant.route) = Some current ->
  mgather pheromones current (Ant.available_nodes self) = Some levels ->
  mgather distances current (Ant.available_nodes self) = Some dists ->
  Ant.available_nodes self <> [] ->
  (np_sum (Ant.probabilities self levels (Ant.heuristic_values self dists)) == 0)%Q ->
  exists n dn,
    (forall w, Ant._choose_next_node self distances pheromones w = (Ok n, w)) /\
    n ∈ Ant.available_nodes self /\
    mget distances current n = Some dn /\
    forall m dm,
      m ∈ Ant.available_nodes self -> mget distances current m = Some dm ->
      (dn <= dm)%Q /\ ((dm == dn)%Q -> n <= m).
Proof.
  intros Hcur Hlev Hdist Hne Hzero.
  assert (dists <> []) as Hdne.
  { apply mgather_length in Hdist. intros ->.
    destruct (Ant.available_nodes self); [done|]. simpl in Hdist. lia. }
  destruct (np_argmin_is_Some dists Hdne) as [k Hk].
  destruct (np_argmin_spec dists k Hk) as (dn & Hdn & Hmin & Hfirst).
  assert (k < length (Ant.available_nodes self)) as Hklt.
  { rewrite <- (mgather_length _ _ _ _ Hdist). by eapply lookup_lt_Some. }
  destruct (lookup_lt_is_Some_2 _ _ Hklt) as [n Hn].
  destruct (mgather_lookup _ _ _ _ _ _ Hdist Hn) as (dn' & Hdn' & Hget).
  assert (dn' = dn) as -> by congruence.
  exists n, dn. repeat split.
  - intros w. unfold Ant._choose_next_node.
    rewrite Hcur, Hlev, Hdist.
    rewrite (proj2 (Qeq_bool_iff _ 0) Hzero), Hk, Hn. reflexivity.
  - by eapply list_elem_of_lookup_2.
  - done.
  - apply list_elem_of_lookup_1 in H as [i Hi].
    destruct (mgather_lookup _ _ _ _ _ _ Hdist Hi) as (dm' & Hdm' & Hget').
    assert (dm' = dm) as -> by congruence. by eapply Hmin.
  - intros Heq.
    apply list_elem_of_lookup_1 in H as [i Hi].
    destruct (mgather_lookup _ _ _ _ _ _ Hdist Hi) as (dm' & Hdm' & Hget').
    assert (dm' = dm) as -> by congruence.
    destruct (decide (i < k)) as [Hik|Hik].
    + pose proof (Hfirst i dm Hdm' Hik) as Hlt.
      rewrite Heq in Hlt. by apply Qlt_irrefl in Hlt.
    + destruct (decide (i = k)) as [->|Hne'].
      { assert (m = n) as -> by congruence. done. }
      apply Nat.lt_le_incl.
      unfold Ant.available_nodes in Hn, Hi.
      eapply (filter_seq_increasing _ _ 0 k i); [exact Hn|exact Hi|lia].
Qed.

(** Uniformly zero pheromone and equal distances: node 1, the lowest
    unvisited index, is chosen whatever the random state. *)
Lemma C7_fallback_deterministic_witness :
  exists n dn,
    (forall w : nat,
       Ant._choose_next_node (R := Demo.demo_runtime) Demo.ant0
         [[0; 1; 1]; [1; 0; 1]; [1; 1; 0]]%Q (np_full 3 0) w = (Ok n, w)) /\
    n ∈ Ant.available_nodes Demo.ant0 /\
    mget [[0; 1; 1]; [1; 0; 1]; [1; 1; 0]]%Q 0 n = Some dn /\
    forall m dm,
      m ∈ Ant.available_nodes Demo.ant0 ->
      mget [[0; 1; 1]; [1; 0; 1]; [1; 1; 0]]%Q 0 m = Some dm ->
      (dn <= dm)%Q /\ ((dm == dn)%Q -> n <= m).
Proof.
  apply (C7_fallback_deterministic (R := Demo.demo_runtime) Demo.ant0
           [[0; 1; 1]; [1; 0; 1]; [1; 1; 0]]%Q (np_full 3 0) 0
           [0; 0]%Q [1; 1]%Q).
  - reflexivity.
  - vm_compute. reflexivity.
  - vm_compute. reflexivity.
  - vm_compute. discriminate.
  - vm_compute. reflexivity.
Defined.

Example fallback_picks_lowest_index (w : nat) :
  Ant._choose_next_node (R := Demo.demo_runtime) Demo.ant0
    [[0; 1; 1]; [1; 0; 1]; [1; 1; 0]]%Q (np_full 3 0) w = (Ok 1, w).
Proof. reflexivity. Qed.

(** ** Route construction *)

Lemma while_unvisited_unfold `{R : Runtime} distances pheromones
    (st : Ant.t * World) :
  Ant.while_unvisited distances pheromones st =
  if length st.1.(Ant.route) <? st.1.(Ant.num_nodes) then
    match Ant.visit_next distances pheromones st with
    | (Ok _, st') => Ant.while_unvisited distances pheromones st'
    | (Raise e, st') => (Raise e, st')
    end
  else (Ok tt, st).
Proof.
  funelim (Ant.while_unvisited distances pheromones st);
    try match goal with H : Nat.ltb _ _ = _ |- _ => rewrite H end;
    try match goal with H : Ant.visit_next _ _ _ = _ |- _ => rewrite H end;
    reflexivity.
Qed.

(** The rule of the loop: an invariant of its body holds when the loop
    ends normally, together with the negation of its condition. *)
Lemma while_unvisited_invariant `{R : Runtime} (I : Ant.t * World -> Prop)
    distances pheromones :
  (forall st st',
     I st -> length st.1.(Ant.route) < st.1.(Ant.num_nodes) ->
     Ant.visit_next distances pheromones st = (Ok tt, st') -> I st') ->
  forall st st',
    I st -> Ant.while_unvisited distances pheromones st = (Ok tt, st') ->
    I st' /\ st'.1.(Ant.num_nodes) <= length st'.1.(Ant.route).
Proof.
  intros Hbody st.
  remember (st.1.(Ant.num_nodes) - length st.1.(Ant.route)) as k eqn:Hk.
  revert st Hk. induction k as [k IH] using lt_wf_ind.
  intros st -> st' HI Hrun. rewrite while_unvisited_unfold in Hrun.
  destruct (length _ <? _) eqn:Hc.
  - apply Nat.ltb_lt in Hc.
    destruct (Ant.visit_next distances pheromones st) as [[[]|e] st1] eqn:Hs;
      [|discriminate].
    pose proof (Ant.visit_next_length _ _ _ _ Hs) as [Hlen Hnum].
    eapply (IH _ _ st1 eq_refl); [by eapply Hbody|done].
    Unshelve. lia.
  - apply Nat.ltb_ge in Hc. injection Hrun as <-. done.
Qed.

Lemma choose_next_node_available `{R : Runtime} `{!RuntimeLaws R}
    self distances pheromones w n w' :
  Ant._choose_next_node self distances pheromones w = (Ok n, w') ->
  n ∈ Ant.available_nodes self.
Proof.
  unfold Ant._choose_next_node.
  destruct (last _); [|discriminate].
  destruct (mgather pheromones _ _); [|discriminate].
  destruct (mgather distances _ _); [|discriminate].
  destruct (Qeq_bool _ _).
  - destruct (np_argmin _) as [k|]; [|discriminate].
    destruct (Ant.available_nodes self !! k) as [x|] eqn:Hx; [|discriminate].
    simpl. intros [= <- <-]. by eapply list_elem_of_lookup_2.
  - apply np_random_choice_elem.
Qed.

Lemma visit_next_route_inv `{R : Runtime} `{!RuntimeLaws R}
    distances pheromones st st' :
  route_inv st.1 ->
  Ant.visit_next distances pheromones st = (Ok tt, st') ->
  route_inv st'.1 /\ st'.1.(Ant.start_node) = st.1.(Ant.start_node).
Proof.
  intros (Hnd & Hvis & Hlt & Hhead). unfold Ant.visit_next.
  destruct (Ant._choose_next_node _ _ _ _) as [[n|e] w'] eqn:Hn; [|discriminate].
  apply choose_next_node_available, elem_of_available_nodes in Hn as [Hn Hfresh].
  destruct (last _) as [c|]; [|discriminate].
  destruct (mget _ _ _); [|discriminate].
  intros [= <-]. simpl. split; [|reflexivity].
  split; [|split; [|split]].
  - simpl. apply NoDup_app. repeat split; [done| |apply NoDup_singleton].
    intros x Hx ->%list_elem_of_singleton. by apply Hfresh, Hvis.
  - intros x. simpl.
    rewrite elem_of_app, elem_of_union, list_elem_of_singleton,
      elem_of_singleton, (Hvis x). tauto.
  - simpl. intros x [Hx| ->%list_elem_of_singleton]%elem_of_app; [by apply Hlt|done].
  - revert Hhead. simpl. by destruct (Ant.route st.1).
Qed.

(** A duplicate-free list of nodes of the graph that is as long as the
    graph has nodes lists each of them once. *)
Lemma full_route_is_permutation n (route : list nat) :
  NoDup route -> (forall x, x ∈ route -> x < n) -> n <= length route ->
  route ≡ₚ seq 0 n.
Proof.
  intros Hnd Hlt Hlen.
  apply submseteq_length_Permutation; [|by rewrite length_seq].
  apply NoDup_submseteq; [done|].
  intros x Hx. apply elem_of_seq. specialize (Hlt x Hx). lia.
Qed.

Lemma find_route_loop_exit `{R : Runtime} `{!RuntimeLaws R}
    (self : Ant.t) distances pheromones w self1 w1 :
  self.(Ant.start_node) < self.(Ant.num_nodes) ->
  Ant.while_unvisited distances pheromones (Ant.reset self, w) = (Ok tt, (self1, w1)) ->
  route_inv self1 /\
  self1.(Ant.start_node) = self.(Ant.start_node) /\
  self1.(Ant.num_nodes) = self.(Ant.num_nodes) /\
  self.(Ant.num_nodes) <= length self1.(Ant.route).
Proof.
  intros Hstart Hrun.
  pose (I := fun st : Ant.t * World =>
               route_inv st.1 /\
               st.1.(Ant.start_node) = self.(Ant.start_node) /\
               st.1.(Ant.num_nodes) = self.(Ant.num_nodes)).
  destruct (while_unvisited_invariant I distances pheromones) with
    (st := (Ant.reset self, w)) (st' := (self1, w1))
    as [(Hinv & Hs & Hn) Hexit]; [| |done|].
  - intros st st' (Hinv & Hs & Hn) _ Hstep.
    destruct (visit_next_route_inv _ _ _ _ Hinv Hstep) as [Hinv' Hs'].
    destruct (Ant.visit_next_length _ _ _ _ Hstep) as [_ Hn'].
    split; [exact Hinv'|]. split; congruence.
  - split; [|done]. split; [|split; [|split]]; simpl.
    + apply NoDup_singleton.
    + intros x. by rewrite list_elem_of_singleton, elem_of_singleton.
    + intros x ->%list_elem_of_singleton. done.
    + done.
  - simpl in *. split; [exact Hinv|]. split; [exact Hs|].
    split; [exact Hn|]. lia.
Qed.

Lemma visit_next_start_node `{R : Runtime} distances pheromones st st' :
  Ant.visit_next distances pheromones st = (Ok tt, st') ->
  st'.1.(Ant.start_node) = st.1.(Ant.start_node).
Proof.
  unfold Ant.visit_next.
  destruct (Ant._choose_next_node _ _ _ _) as [[x|e] w']; [|discriminate].
  destruct (last _); [|discriminate].
  destruct (mget _ _ _); [|discriminate].
  by intros [= <-].
Qed.

(** A route can only be completed from a start node of the graph: the
    closing edge reads the distance matrix at the start node. *)
Lemma find_route_start_in_range `{R : Runtime}
    (self : Ant.t) distances pheromones w self' w' :
  square self.(Ant.num_nodes) distances ->
  Ant.find_route self distances pheromones w = (Ok tt, (self', w')) ->
  self.(Ant.start_node) < self.(Ant.num_nodes).
Proof.
  intros Hsq. unfold Ant.find_route.
  destruct (Ant.while_unvisited _ _ _) as [[[]|e] [self1 w1]] eqn:Hloop;
    [|discriminate].
  pose (I := fun st : Ant.t * World =>
               st.1.(Ant.start_node) = self.(Ant.start_node)).
  destruct (while_unvisited_invariant I distances pheromones) with
    (st := (Ant.reset self, w)) (st' := (self1, w1)) as [Hs _];
    [|reflexivity|done|].
  { intros st st' Hs _ Hstep. unfold I.
    by rewrite (visit_next_start_node _ _ _ _ Hstep). }
  unfold I in Hs. simpl in Hs.
  destruct (last _) as [previous|]; [|discriminate].
  destruct (mget _ _ _) as [d|] eqn:Hd; [|discriminate].
  intros _. rewrite <- Hs.
  assert (is_Some (mget distances previous (Ant.start_node self1))) as Hsome
    by eauto.
  by apply (mget_is_Some _ _ _ _ Hsq) in Hsome as [_ ?].
Qed.

(** C1. On a problem with [N >= 1] nodes, that is with an [N] by [N]
    distance matrix, a route completed by [find_route] has length [N + 1],
    its first [N] entries are a permutation of [0 .. N-1], and its last
    entry is its first entry, the start node of the ant. *)
Theorem C1_route_validity `{R : Runtime} `{!RuntimeLaws R}
    (self : Ant.t) (distances pheromones : matrix) (w : World)
    (self' : Ant.t) (w' : World) :
  1 <= self.(Ant.num_nodes) ->
  square self.(Ant.num_nodes) distances ->
  Ant.find_route self distances pheromones w = (Ok tt, (self', w')) ->
  length self'.(Ant.route) = self.(Ant.num_nodes) + 1 /\
  take self.(Ant.num_nodes) self'.(Ant.route) ≡ₚ seq 0 self.(Ant.num_nodes) /\
  last self'.(Ant.route) = head self'.(Ant.route) /\
  head self'.(Ant.route) = Some self.(Ant.start_node).
Proof.
  intros _ Hsq Hrun.
  pose proof (find_route_start_in_range _ _ _ _ _ _ Hsq Hrun) as Hstart.
  revert Hrun. unfold Ant.find_route.
  destruct (Ant.while_unvisited _ _ _) as [[[]|e] [self1 w1]] eqn:Hloop;
    [|discriminate].
  destruct (find_route_loop_exit self _ _ _ _ _ Hstart Hloop)
    as ((Hnd & Hvis & Hlt & Hhead) & Hs & Hn & Hexit).
  destruct (last _) as [previous|]; [|discriminate].
  destruct (mget _ _ _) as [d|]; [|discriminate].
  intros [= <- <-]. simpl.
  rewrite Hn in Hlt.
  pose proof (full_route_is_permutation _ _ Hnd Hlt Hexit) as Hperm.
  assert (length (Ant.route self1) = Ant.num_nodes self) as Hlen.
  { rewrite Hperm. apply length_seq. }
  repeat split.
  - rewrite length_app. simpl. lia.
  - rewrite <- Hlen, take_app_length. by rewrite Hlen.
  - rewrite last_snoc. revert Hhead. rewrite Hs.
    by destruct (Ant.route self1).
  - revert Hhead. rewrite Hs. by destruct (Ant.route self1).
Qed.

Lemma C1_route_validity_witness :
  Ant.find_route (R := Demo.demo_runtime) Demo.ant0 Demo.d3
    Demo.p3.(Pheromone.trails) 1%nat
  = (Ok tt, (Ant.mk 0 [0; 2; 1; 0] {[ 0; 1; 2 ]} 6 3 1 2, 3)) /\
  length [0; 2; 1; 0] = 3 + 1 /\
  take 3 [0; 2; 1; 0] ≡ₚ seq 0 3 /\
  last [0; 2; 1; 0] = head [0; 2; 1; 0] /\
  head [0; 2; 1; 0] = Some 0.
Proof.
  split.
  - vm_compute. reflexivity.
  - apply (@C1_route_validity Demo.demo_runtime Demo.demo_runtime_laws Demo.ant0 Demo.d3
             Demo.p3.(Pheromone.trails) 1%nat
             (Ant.mk 0 [0; 2; 1; 0] {[ 0; 1; 2 ]} 6 3 1 2) 3).
    + simpl. lia.
    + split; [reflexivity|]. repeat constructor.
    + vm_compute. reflexivity.
Defined.

(** ** Incremental length and tour length *)

Lemma running_total_snoc ls x :
  running_total (ls ++ [x]) = (running_total ls + x)%Q.
Proof. unfold running_total. by rewrite fold_left_app. Qed.

(** Appending a node to a route appends one edge, from its last node. *)
Lemma consecutive_snoc (route : list nat) c n :
  last route = Some c ->
  zip (removelast (route ++ [n])) (tail (route ++ [n])) =
  zip (removelast route) (tail route) ++ [(c, n)].
Proof.
  intros [l0 ->]%last_Some.
  rewrite !removelast_last.
  destruct l0 as [|a l1]; [reflexivity|].
  change (tail (((a :: l1) ++ [c]) ++ [n])) with ((l1 ++ [c]) ++ [n]).
  change (tail ((a :: l1) ++ [c])) with (l1 ++ [c]).
  rewrite (zip_with_app pair (a :: l1) [c] (l1 ++ [c]) [n]); [reflexivity|].
  simpl. rewrite length_app. simpl. lia.
Qed.

Lemma edge_lengths_snoc d (route : list nat) c n ls x :
  last route = Some c ->
  Problem.edge_lengths d route = Some ls ->
  mget d c n = Some x ->
  Problem.edge_lengths d (route ++ [n]) = Some (ls ++ [x]).
Proof.
  unfold Problem.edge_lengths. intros Hlast Hls Hx.
  rewrite (consecutive_snoc route c n Hlast).
  apply mapM_Some. apply mapM_Some in Hls.
  apply Forall2_app; [done|]. by repeat constructor.
Qed.

Lemma visit_next_distance_inv `{R : Runtime} distances pheromones st st' :
  distance_inv distances st.1 ->
  Ant.visit_next distances pheromones st = (Ok tt, st') ->
  distance_inv distances st'.1 /\
  st'.1.(Ant.start_node) = st.1.(Ant.start_node).
Proof.
  intros (Hhead & ls & Hls & Htotal). unfold Ant.visit_next.
  destruct (Ant._choose_next_node _ _ _ _) as [[n|e] w']; [|discriminate].
  destruct (last _) as [c|] eqn:Hlast; [|discriminate].
  destruct (mget _ _ _) as [x|] eqn:Hx; [|discriminate].
  intros [= <-]. simpl. split; [|reflexivity]. split.
  - revert Hhead. simpl. by destruct (Ant.route st.1).
  - exists (ls ++ [x]). split; [by eapply edge_lengths_snoc|].
    simpl. by rewrite running_total_snoc, Htotal.
Qed.

(** C10, as the code has it.  When [find_route] completes over a distance
    matrix with a zero diagonal, the total distance of the ant and
    [get_length] of its completed route are made of the same edge lengths,
    those of the consecutive nodes of the route, in the same order.  The
    ant has added them one by one from [0.0]; [get_length] hands them to
    [np.sum] and adds the diagonal entry at the start node, which is zero.
    The two lengths are therefore equal wherever [np.sum] gives what adding
    from left to right gives. *)
Theorem C10_total_distance_and_tour_length `{R : Runtime}
    (problem : Problem.t) (n : nat) (d pheromones : matrix)
    (self : Ant.t) (w : World) (self' : Ant.t) (w' : World) :
  problem.(Problem.distances) = Some d ->
  square n d ->
  (forall i x, mget d i i = Some x -> (x == 0)%Q) ->
  Ant.find_route self d pheromones w = (Ok tt, (self', w')) ->
  exists ls closing,
    Problem.edge_lengths d self'.(Ant.route) = Some ls /\
    self'.(Ant.total_distance) = running_total ls /\
    mget d self.(Ant.start_node) self.(Ant.start_node) = Some closing /\
    (closing == 0)%Q /\
    Problem.get_length problem self'.(Ant.route) = Ok (np_sum ls + closing)%Q /\
    ((np_sum ls == running_total ls)%Q ->
     (np_sum ls + closing == self'.(Ant.total_distance))%Q).
Proof.
  intros Hd Hsq Hdiag. unfold Ant.find_route.
  destruct (Ant.while_unvisited _ _ _) as [[[]|e] [self1 w1]] eqn:Hloop;
    [|discriminate].
  pose (I := fun st : Ant.t * World =>
               distance_inv d st.1 /\
               st.1.(Ant.start_node) = self.(Ant.start_node)).
  destruct (while_unvisited_invariant I d pheromones) with
    (st := (Ant.reset self, w)) (st' := (self1, w1))
    as [[(Hhead & ls & Hls & Htotal) Hs] _]; [| |done|].
  { intros st st' [Hinv Hs] _ Hstep.
    destruct (visit_next_distance_inv _ _ _ _ Hinv Hstep) as [Hinv' Hs'].
    split; [exact Hinv'|congruence]. }
  { split; [|reflexivity]. split; [reflexivity|]. by exists []. }
  simpl in Hhead, Hls, Htotal, Hs.
  destruct (last _) as [previous|] eqn:Hlast; [|discriminate].
  destruct (mget _ _ _) as [x|] eqn:Hx; [|discriminate].
  intros [= <- <-]. simpl.
  pose proof (edge_lengths_snoc _ _ _ _ _ _ Hlast Hls Hx) as Hls'.
  destruct (Ant.route self1) as [|first rest] eqn:Hroute; [done|].
  injection Hhead as ->.
  assert (is_Some (mget d (Ant.start_node self1) (Ant.start_node self1)))
    as [z Hz].
  { apply (mget_is_Some n d _ _ Hsq).
    assert (is_Some (mget d previous (Ant.start_node self1))) as Hsome by eauto.
    apply (mget_is_Some n d _ _ Hsq) in Hsome. lia. }
  pose proof (last_last (Ant.start_node self1 :: rest) (Ant.start_node self1)
                (Ant.start_node self1)) as Hfinal.
  unfold Problem.get_length. rewrite Hd.
  change ((Ant.start_node self1 :: rest) ++ [Ant.start_node self1])
    with (Ant.start_node self1 :: rest ++ [Ant.start_node self1]) in *.
  rewrite Hls', Hfinal, Hz, <- Hs.
  exists (ls ++ [x]), z. split; [reflexivity|].
  split; [by rewrite running_total_snoc, Htotal|].
  split; [exact Hz|]. split; [exact (Hdiag _ _ Hz)|].
  split; [reflexivity|].
  intros ->. rewrite running_total_snoc, Htotal, (Hdiag _ _ Hz). ring.
Qed.

Lemma C10_total_distance_and_tour_length_witness :
  exists ls closing,
    Problem.edge_lengths Demo.d3 [0; 2; 1; 0] = Some ls /\
    6%Q = running_total ls /\
    mget Demo.d3 0 0 = Some closing /\
    (closing == 0)%Q /\
    Problem.get_length (R := Demo.demo_runtime)
      (Problem.mk "d3" "Problems/d3.tsp" None (Some Demo.d3) 0 1 1 2 (1 # 2) 100)
      [0; 2; 1; 0] = Ok (np_sum (Runtime := Demo.demo_runtime) ls + closing)%Q /\
    ((np_sum (Runtime := Demo.demo_runtime) ls == running_total ls)%Q ->
     (np_sum (Runtime := Demo.demo_runtime) ls + closing == 6)%Q).
Proof.
  assert (Ant.find_route (R := Demo.demo_runtime) Demo.ant0 Demo.d3
            Demo.p3.(Pheromone.trails) 1%nat
          = (Ok tt, (Ant.mk 0 [0; 2; 1; 0] {[ 0; 1; 2 ]} 6 3 1 2, 3%nat))) as Hrun.
  { vm_compute. reflexivity. }
  refine (C10_total_distance_and_tour_length (R := Demo.demo_runtime)
           (Problem.mk "d3" "Problems/d3.tsp" None (Some Demo.d3) 0 1 1 2 (1 # 2) 100)
           3 Demo.d3 Demo.p3.(Pheromone.trails) Demo.ant0 1%nat
           (Ant.mk 0 [0; 2; 1; 0] {[ 0; 1; 2 ]} 6 3 1 2) 3%nat _ _ _ Hrun).
  - reflexivity.
  - split; [reflexivity|]. repeat constructor.
  - intros [|[|[|i]]] x; vm_compute; intros [= <-]; reflexivity.
Defined.

(** C10 fails as stated, on the floats of the code.  Over ten nodes at
    distance [0.1] of one another, and without pheromone, the ant walks
    [0, 1, ..., 9, 0]; its ten additions of [0.1] from [0.0] give
    [0.9999999999999999], while [get_length] of that route is [1.0]:
    [np.sum] adds the first eight edges in pairs before the last two. *)
Lemma C10_binary64_lengths_differ :
  exists a,
    Binary64.find_route unit Binary64.power_of_one Binary64.no_draw
      Binary64.ant10 Binary64.d10 Binary64.no_pheromone tt = (Ok tt, (a, tt)) /\
    a.(Binary64.route) = [0; 1; 2; 3; 4; 5; 6; 7; 8; 9; 0] /\
    a.(Binary64.total_distance) = Binary64.below_one /\
    Binary64.get_length (Some Binary64.d10) a.(Binary64.route) = Ok 1%float /\
    (a.(Binary64.total_distance) =? 1)%float = false.
Proof. eexists. vm_compute. repeat split; reflexivity. Qed.

(** ** Best-solution tracking *)

Lemma efloat_lt_le a b : efloat_lt a b -> efloat_le a b.
Proof. destruct a, b; simpl; try done. apply Qlt_le_weak. Qed.

Lemma efloat_le_refl a : efloat_le a a.
Proof. destruct a; simpl; [apply Qle_refl|done]. Qed.

Lemma efloat_lt_trans a b c : efloat_lt a b -> efloat_lt b c -> efloat_lt a c.
Proof. destruct a, b, c; simpl; try done. apply Qlt_trans. Qed.

Lemma lt_efloat_spec x b : lt_efloat x b = true -> efloat_lt (Finite x) b.
Proof. destruct b; simpl; [apply Qlt_bool_iff|done]. Qed.

Lemma efloat_ltb_spec a b : Optimization.efloat_ltb a b = true -> efloat_lt a b.
Proof. destruct a; simpl; [apply lt_efloat_spec|done]. Qed.

Lemma improves_refl {A} (b : A * efloat) : improves b b.
Proof. by left. Qed.

Lemma improves_trans {A} (a b c : A * efloat) :
  improves a b -> improves b c -> improves a c.
Proof.
  intros [->|Hab] [->|Hbc]; [by left|by right|by right|].
  right. by eapply efloat_lt_trans.
Qed.

Lemma improves_le {A} (old new : A * efloat) :
  improves old new -> efloat_le new.2 old.2.
Proof. intros [->|H]; [apply efloat_le_refl|by apply efloat_lt_le]. Qed.

Section Preserves.
Context {S : Type} (rel : S -> S -> Prop).
Hypothesis rel_refl : forall s, rel s s.
Hypothesis rel_trans : forall s1 s2 s3, rel s1 s2 -> rel s2 s3 -> rel s1 s3.

Lemma preserves_ret {A} (a : A) : preserves rel (ret a).
Proof. intros s. apply rel_refl. Qed.

Lemma preserves_raise {A} e : preserves rel (raise (A := A) e).
Proof. intros s. apply rel_refl. Qed.

Lemma preserves_gets {A} (f : S -> A) : preserves rel (gets f).
Proof. intros s. apply rel_refl. Qed.

Lemma preserves_modify (f : S -> S) :
  (forall s, rel s (f s)) -> preserves rel (modify f).
Proof. intros Hf s. apply Hf. Qed.

Lemma preserves_bind {A B} (m : M S A) (k : A -> M S B) :
  preserves rel m -> (forall a, preserves rel (k a)) -> preserves rel (bind m k).
Proof.
  intros Hm Hk s. unfold bind. specialize (Hm s).
  destruct (m s) as [[a|e] s']; simpl in *; [|done].
  eapply rel_trans; [exact Hm|apply Hk].
Qed.

Lemma preserves_for_each {X} (xs : list X) (body : X -> M S unit) :
  (forall x, preserves rel (body x)) -> preserves rel (for_each xs body).
Proof.
  intros Hbody. induction xs as [|x xs IH]; simpl.
  - apply preserves_ret.
  - apply preserves_bind; [apply Hbody|]. intros _. exact IH.
Qed.

End Preserves.

Section Monotone.
Context {R : Runtime}.

(** The relation kept by every method of the colony. *)
Let colony_rel (s s' : Colony.t * World) : Prop :=
  improves (colony_best s.1) (colony_best s'.1).

(** The relation kept by every step of the driver. *)
Let driver_rel (s s' : Optimization.t * World) : Prop :=
  never_regresses s.1 s'.1.

Local Lemma colony_rel_refl s : colony_rel s s.
Proof. apply improves_refl. Qed.

Local Lemma colony_rel_trans s1 s2 s3 :
  colony_rel s1 s2 -> colony_rel s2 s3 -> colony_rel s1 s3.
Proof. apply improves_trans. Qed.

Local Lemma driver_rel_refl s : driver_rel s s.
Proof. split; apply improves_refl. Qed.

Local Lemma driver_rel_trans s1 s2 s3 :
  driver_rel s1 s2 -> driver_rel s2 s3 -> driver_rel s1 s3.
Proof. intros [? ?] [? ?]. split; eapply improves_trans; eauto. Qed.

Lemma now_monotone : preserves colony_rel Colony.now.
Proof.
  intros s. unfold Colony.now. destruct (time_time s.2). apply improves_refl.
Qed.

Lemma prepare_iteration_monotone : preserves colony_rel Colony._prepare_iteration.
Proof.
  apply (preserves_bind colony_rel colony_rel_trans); [apply now_monotone|].
  intros x. apply preserves_modify. intros s. apply improves_refl.
Qed.

(** The best solution changes only under [route_length < self.best_length]. *)
Lemma construct_and_compare_monotone i :
  preserves colony_rel (Colony.construct_and_compare i).
Proof.
  intros s. unfold Colony.construct_and_compare.
  destruct (Colony.ants s.1 !! i) as [ant|]; [|apply improves_refl].
  destruct (match Problem.distances (Colony.problem s.1) with
            | Some d => _ | None => _ end) as [r [ant' w']].
  destruct r as [[]|e]; [|apply improves_refl].
  destruct (Problem.get_length _ _) as [route_length|e]; [|apply improves_refl].
  destruct (lt_efloat _ _) eqn:Hlt; [|apply improves_refl].
  right. simpl. by apply lt_efloat_spec.
Qed.

Lemma update_pheromones_monotone : preserves colony_rel Colony._update_pheromones.
Proof.
  intros s. unfold Colony._update_pheromones.
  destruct (Colony.deposit_all _ _). apply improves_refl.
Qed.

Lemma perform_iteration_monotone : preserves colony_rel Colony._perform_iteration.
Proof.
  unfold Colony._perform_iteration.
  apply (preserves_bind colony_rel colony_rel_trans);
    [apply (preserves_gets colony_rel colony_rel_refl)|intros n].
  apply (preserves_bind colony_rel colony_rel_trans); [|intros _].
  { apply (preserves_for_each colony_rel colony_rel_refl colony_rel_trans).
    apply construct_and_compare_monotone. }
  apply (preserves_bind colony_rel colony_rel_trans);
    [apply update_pheromones_monotone|intros _].
  apply preserves_modify. intros s. apply improves_refl.
Qed.

Lemma finalize_iteration_monotone : preserves colony_rel Colony._finalize_iteration.
Proof.
  unfold Colony._finalize_iteration.
  apply (preserves_bind colony_rel colony_rel_trans);
    [apply now_monotone|intros x].
  apply (preserves_bind colony_rel colony_rel_trans);
    [apply (preserves_gets colony_rel colony_rel_refl)|intros started].
  destruct started; [|apply (preserves_raise colony_rel colony_rel_refl)].
  apply preserves_modify. intros s. apply improves_refl.
Qed.

Lemma run_iteration_monotone : preserves colony_rel Colony.run_iteration.
Proof.
  unfold Colony.run_iteration.
  apply (preserves_bind colony_rel colony_rel_trans);
    [apply prepare_iteration_monotone|intros _].
  apply (preserves_bind colony_rel colony_rel_trans);
    [apply perform_iteration_monotone|intros _].
  apply (preserves_bind colony_rel colony_rel_trans);
    [apply finalize_iteration_monotone|intros _].
  apply (preserves_gets colony_rel colony_rel_refl).
Qed.

Lemma colony_run_iteration_monotone :
  preserves driver_rel Optimization.colony_run_iteration.
Proof.
  intros s. unfold Optimization.colony_run_iteration.
  pose proof (run_iteration_monotone (Optimization.colony s.1, s.2)) as H.
  destruct (Colony.run_iteration _) as [r [c w']].
  split; [apply improves_refl|exact H].
Qed.

Lemma optimize_iteration_monotone callback iteration :
  preserves driver_rel (Optimization.optimize_iteration callback iteration).
Proof.
  unfold Optimization.optimize_iteration.
  apply (preserves_bind driver_rel driver_rel_trans);
    [apply colony_run_iteration_monotone|intros found].
  apply (preserves_bind driver_rel driver_rel_trans); [|intros _].
  { apply preserves_modify. intros s.
    destruct (Optimization.efloat_ltb _ _) eqn:Hlt; [|apply driver_rel_refl].
    split; [|apply improves_refl]. right. by apply efloat_ltb_spec. }
  apply (preserves_bind driver_rel driver_rel_trans); [|intros _].
  { apply preserves_modify. intros s. split; apply improves_refl. }
  destruct callback as [f|]; [|apply (preserves_ret driver_rel driver_rel_refl)].
  intros s. destruct (f _ _). split; apply improves_refl.
Qed.

Lemma optimize_monotone callback :
  preserves driver_rel (Optimization.optimize callback).
Proof.
  unfold Optimization.optimize.
  apply (preserves_bind driver_rel driver_rel_trans);
    [apply (preserves_gets driver_rel driver_rel_refl)|intros n].
  apply (preserves_for_each driver_rel driver_rel_refl driver_rel_trans).
  intros k. apply optimize_iteration_monotone.
Qed.

(** C2. After every iteration of [optimize], whether it ends normally or
    raises, the driver's best length and the colony's best length are at
    most what they were before it, and a best route and length are
    replaced only by a strictly shorter one; the same holds from the start
    to the end of a whole run of [optimize]. *)
Theorem C2_best_length_monotone
    (callback : option (Optimization.progress -> M World unit))
    (iteration : nat) (st : Optimization.t * World) :
  let after := (Optimization.optimize_iteration callback iteration st).2.1 in
  let final := (Optimization.optimize callback st).2.1 in
  (efloat_le after.(Optimization.best_length) st.1.(Optimization.best_length) /\
   efloat_le after.(Optimization.colony).(Colony.best_length)
             st.1.(Optimization.colony).(Colony.best_length) /\
   never_regresses st.1 after) /\
  (efloat_le final.(Optimization.best_length) st.1.(Optimization.best_length) /\
   efloat_le final.(Optimization.colony).(Colony.best_length)
             st.1.(Optimization.colony).(Colony.best_length) /\
   never_regresses st.1 final).
Proof.
  intros after final.
  pose proof (optimize_iteration_monotone callback iteration st) as [H1 H2].
  pose proof (optimize_monotone callback st) as [H3 H4].
  repeat split; try done.
  - apply (improves_le _ _ H1).
  - apply (improves_le _ _ H2).
  - apply (improves_le _ _ H3).
  - apply (improves_le _ _ H4).
Qed.

End Monotone.

(** ** Route construction runs to completion *)

Lemma available_nodes_nonempty (self : Ant.t) :
  route_inv self -> length self.(Ant.route) < self.(Ant.num_nodes) ->
  Ant.available_nodes self <> [].
Proof.
  intros (Hnd & Hvis & Hlt & Hhead) Hlen Hnil.
  assert (seq 0 self.(Ant.num_nodes) ⊆+ self.(Ant.route)) as Hsub.
  { apply NoDup_submseteq; [apply NoDup_seq|].
    intros x Hx. apply Hvis.
    destruct (decide (x ∈ self.(Ant.visited))) as [|Hfresh]; [done|].
    by destruct (filter_nil_not_elem_of _ _ x Hnil Hfresh). }
  apply submseteq_length in Hsub. rewrite length_seq in Hsub. lia.
Qed.

Lemma mgather_is_Some n m i cols :
  square n m -> i < n -> Forall (fun j => j < n) cols ->
  is_Some (mgather m i cols).
Proof.
  intros Hsq Hi Hcols. unfold mgather.
  destruct Hsq as [Hl Hr].
  destruct (lookup_lt_is_Some_2 m i) as [row Hrow]; [lia|].
  rewrite Hrow. simpl. apply mapM_is_Some.
  eapply Forall_impl; [exact Hcols|]. intros j Hj. simpl.
  apply lookup_lt_is_Some_2.
  rewrite Forall_forall in Hr. rewrite (Hr row); [done|].
  by eapply list_elem_of_lookup_2.
Qed.

Lemma available_nodes_in_range (self : Ant.t) :
  Forall (fun j => j < self.(Ant.num_nodes)) (Ant.available_nodes self).
Proof.
  apply Forall_forall. intros x Hx. by apply elem_of_available_nodes in Hx as [? _].
Qed.

Section Completion.
Context {R : Runtime} {laws : RuntimeLaws R}.
Hypothesis sampler : sampler_total R.
Variables (n : nat) (distances pheromones : matrix).
Hypothesis distances_square : square n distances.
Hypothesis pheromones_square : square n pheromones.

Lemma choose_next_node_Ok (self : Ant.t) w :
  route_inv self -> self.(Ant.num_nodes) = n ->
  length self.(Ant.route) < n ->
  exists x w', Ant._choose_next_node self distances pheromones w = (Ok x, w').
Proof.
  intros Hinv Hn Hlen. pose proof Hinv as (Hnd & Hvis & Hlt & Hhead).
  unfold Ant._choose_next_node.
  destruct (last (Ant.route self)) as [c|] eqn:Hlast;
    [|apply last_None in Hlast; rewrite Hlast in Hhead; done].
  assert (c < n) as Hc by (rewrite <- Hn; by apply Hlt, last_Some_elem_of).
  pose proof (available_nodes_in_range self) as Hrange. rewrite Hn in Hrange.
  destruct (mgather_is_Some n pheromones c _ pheromones_square Hc Hrange)
    as [levels ->].
  destruct (mgather_is_Some n distances c _ distances_square Hc Hrange)
    as [dists Hdists]. rewrite Hdists.
  assert (Ant.available_nodes self <> []) as Hne
    by (apply available_nodes_nonempty; [done|lia]).
  destruct (Qeq_bool _ _); [|by apply sampler].
  assert (dists <> []) as Hdne.
  { apply mgather_length in Hdists. intros ->.
    destruct (Ant.available_nodes self); [done|]. simpl in Hdists. lia. }
  destruct (np_argmin_is_Some dists Hdne) as [k Hk]. rewrite Hk.
  destruct (np_argmin_spec dists k Hk) as (dn & Hdn & _).
  assert (k < length (Ant.available_nodes self)) as Hklt.
  { rewrite <- (mgather_length _ _ _ _ Hdists). by eapply lookup_lt_Some. }
  destruct (lookup_lt_is_Some_2 _ _ Hklt) as [x ->]. simpl. eauto.
Qed.

Lemma visit_next_Ok (st : Ant.t * World) :
  route_inv st.1 -> st.1.(Ant.num_nodes) = n ->
  length st.1.(Ant.route) < n ->
  exists st', Ant.visit_next distances pheromones st = (Ok tt, st').
Proof.
  intros Hinv Hn Hlen. pose proof Hinv as (Hnd & Hvis & Hlt & Hhead).
  destruct (choose_next_node_Ok st.1 st.2 Hinv Hn Hlen) as (x & w' & Hx).
  unfold Ant.visit_next. rewrite Hx.
  apply choose_next_node_available, elem_of_available_nodes in Hx as [Hxn _].
  destruct (last (Ant.route st.1)) as [c|] eqn:Hlast;
    [|apply last_None in Hlast; rewrite Hlast in Hhead; done].
  assert (c < n) as Hc by (rewrite <- Hn; by apply Hlt, last_Some_elem_of).
  destruct (proj2 (mget_is_Some n distances c x distances_square)) as [d ->];
    [lia|]. eauto.
Qed.

Lemma while_unvisited_Ok (st : Ant.t * World) :
  route_inv st.1 -> st.1.(Ant.num_nodes) = n ->
  exists st', Ant.while_unvisited distances pheromones st = (Ok tt, st').
Proof.
  remember (st.1.(Ant.num_nodes) - length st.1.(Ant.route)) as k eqn:Hk.
  revert st Hk. induction k as [k IH] using lt_wf_ind.
  intros st -> Hinv Hn. rewrite while_unvisited_unfold.
  destruct (length _ <? _) eqn:Hc; [|eauto].
  apply Nat.ltb_lt in Hc.
  destruct (visit_next_Ok st Hinv Hn) as [st1 Hs]; [lia|]. rewrite Hs.
  destruct (visit_next_route_inv _ _ _ _ Hinv Hs) as [Hinv1 _].
  destruct (Ant.visit_next_length _ _ _ _ Hs) as [Hlen1 Hn1].
  apply (IH (st1.1.(Ant.num_nodes) - length st1.1.(Ant.route)));
    [lia|reflexivity|done|congruence].
Qed.

(** With [n] by [n] matrices, a start node of the graph and a sampler that
    answers, [find_route] raises nothing: it returns a completed route. *)
Lemma find_route_completes (self : Ant.t) w :
  self.(Ant.num_nodes) = n -> self.(Ant.start_node) < n ->
  exists self' w',
    Ant.find_route self distances pheromones w = (Ok tt, (self', w')).
Proof.
  intros Hn Hstart. unfold Ant.find_route.
  assert (route_inv (Ant.reset self)) as Hinv0.
  { split; [|split; [|split]]; simpl.
    - apply NoDup_singleton.
    - intros x. by rewrite list_elem_of_singleton, elem_of_singleton.
    - intros x ->%list_elem_of_singleton. lia.
    - done. }
  destruct (while_unvisited_Ok (Ant.reset self, w) Hinv0 Hn) as [[self1 w1] Hloop].
  rewrite Hloop.
  destruct (find_route_loop_exit self _ _ _ _ _ ltac:(lia) Hloop)
    as ((Hnd & Hvis & Hlt & Hhead) & Hs & Hn1 & Hexit).
  destruct (last (Ant.route self1)) as [previous|] eqn:Hlast;
    [|apply last_None in Hlast; rewrite Hlast in Hhead; done].
  assert (previous < n) as Hp.
  { rewrite <- Hn, <- Hn1. by apply Hlt, last_Some_elem_of. }
  destruct (proj2 (mget_is_Some n distances previous (Ant.start_node self1)
                     distances_square)) as [d ->]; [lia|]. eauto.
Qed.

End Completion.

(** ** The ants of a colony *)

(** Every ant that [Colony.__init__] creates starts at a node of the graph. *)
Lemma make_ants_start_in_range `{R : Runtime} `{!RuntimeLaws R}
    k n alpha beta w ants w' :
  Colony.make_ants k n alpha beta w = (Ok ants, w') ->
  Forall (fun a => a.(Ant.start_node) < n /\ a.(Ant.num_nodes) = n) ants.
Proof.
  revert w ants w'. induction k as [|k IH]; intros w ants w'; simpl.
  - intros [= <- <-]. constructor.
  - unfold bind at 1.
    destruct (random_randint 0 (Z.of_nat n - 1) w) as [[start|e] w1] eqn:Hstart;
      [|discriminate].
    apply random_randint_range in Hstart.
    unfold bind at 1.
    destruct (Colony.make_ants k n alpha beta w1) as [[rest|e] w2] eqn:Hrest;
      [|discriminate].
    intros [= <- <-]. constructor; [|by eapply IH].
    simpl. split; [lia|reflexivity].
Qed.

Lemma colony_ants_start_in_range `{R : Runtime} `{!RuntimeLaws R}
    problem w c w' :
  Colony.__init__ problem w = (Ok c, w') ->
  Forall (fun a => a.(Ant.start_node) < c.(Colony.num_nodes) /\
                   a.(Ant.num_nodes) = c.(Colony.num_nodes))
         c.(Colony.ants).
Proof.
  unfold Colony.__init__.
  destruct (Problem.nodes problem) as [nodes|]; [|discriminate].
  unfold bind.
  destruct (Colony.make_ants _ _ _ _ w) as [[ants|e] w1] eqn:Hants;
    [|discriminate].
  intros [= <- <-]. simpl. by eapply make_ants_start_in_range.
Qed.

(** ** What a deposit writes *)

Lemma deposit_edge_effect n d m i j :
  square n m -> i < n -> j < n ->
  exists m',
    Pheromone.deposit_edge d m i j = (Ok tt, m') /\ square n m' /\
    forall a b,
      mget m' a b =
      Nat.iter (edge_hits (i, j) a b) (fun x => (x + d)%Q) <$> mget m a b.
Proof.
  intros Hsq Hi Hj. unfold Pheromone.deposit_edge.
  destruct (madd_is_Some n m i j d Hsq) as [_ [m1 H1]]; [done|]. rewrite H1.
  pose proof (madd_square _ _ _ _ _ _ Hsq H1) as Hsq1.
  destruct (madd_is_Some n m1 j i d Hsq1) as [_ [m2 H2]]; [done|]. rewrite H2.
  exists m2. split; [reflexivity|]. split; [by eapply madd_square|].
  intros a b.
  rewrite (mget_madd _ _ _ _ _ _ _ H2), (mget_madd _ _ _ _ _ _ _ H1).
  unfold edge_hits.
  destruct (mget m a b) as [x|]; simpl;
    repeat case_decide; simpl; try reflexivity; exfalso;
    repeat match goal with
      | H : _ /\ _ |- _ => destruct H
      | H : (_, _) = (_, _) |- _ => injection H as ? ?
      end; subst; tauto.
Qed.

Lemma deposit_edges_effect n d edges : forall m,
  square n m -> Forall (fun e : nat * nat => e.1 < n /\ e.2 < n) edges ->
  exists m',
    Pheromone.deposit_edges d m edges = (Ok tt, m') /\ square n m' /\
    forall a b,
      mget m' a b = Nat.iter (hits edges a b) (fun x => (x + d)%Q) <$> mget m a b.
Proof.
  induction edges as [|[i j] rest IH]; intros m Hsq Hin.
  - exists m. split; [reflexivity|]. split; [exact Hsq|].
    intros a b. simpl. by destruct (mget m a b).
  - apply Forall_cons in Hin as [[Hi Hj] Hrest]. simpl in Hi, Hj.
    destruct (deposit_edge_effect n d m i j Hsq Hi Hj) as (m1 & H1 & Hsq1 & Hget1).
    destruct (IH m1 Hsq1 Hrest) as (m2 & H2 & Hsq2 & Hget2).
    exists m2. simpl. rewrite H1. split; [exact H2|]. split; [exact Hsq2|].
    intros a b. rewrite Hget2, Hget1.
    destruct (mget m a b) as [x|]; simpl; [|reflexivity].
    by rewrite Nat.iter_add.
Qed.

Lemma hits_app edges1 edges2 a b :
  hits (edges1 ++ edges2) a b = hits edges1 a b + hits edges2 a b.
Proof. induction edges1 as [|e rest IH]; simpl; [done|]. rewrite IH. lia. Qed.

(** For a non-zero amount and a non-zero length, [deposit] on a route of
    valid nodes returns normally and adds [amount / length] to an entry once
    for every time an edge of the route, the closing edge included, is
    written there in either direction; entries on no edge keep their value,
    and the rate and the default amount are untouched. *)
Theorem deposit_effect (p : Pheromone.t) (n : nat) (route : list nat)
    (length amount : Q) :
  square n p.(Pheromone.trails) -> route <> [] ->
  Forall (fun x => x < n) route ->
  ~ (length == 0)%Q -> ~ (amount == 0)%Q ->
  exists m',
    Pheromone.deposit p route length (Some amount) =
    (Ok tt, Pheromone.with_trails p m') /\
    forall a b,
      mget m' a b =
      Nat.iter (hits (deposited_edges route) a b)
               (fun x => (x + amount / length)%Q)
        <$> mget p.(Pheromone.trails) a b.
Proof.
  intros Hsq Hne Hroute Hlen Hamount. unfold Pheromone.deposit.
  rewrite (proj2 (Qeq_bool_false length 0) Hlen). simpl.
  rewrite (proj2 (Qeq_bool_false amount 0) Hamount).
  destruct (deposit_edges_effect n (amount / length) _ _ Hsq
              (consecutive_in_range n route Hroute)) as (m1 & H1 & Hsq1 & Hget1).
  rewrite H1. unfold deposited_edges.
  destruct (head route) as [first|] eqn:Hhead; [|by destruct route].
  destruct (last route) as [final|] eqn:Hlast; [|by apply last_None in Hlast].
  rewrite Forall_forall in Hroute.
  destruct (decide (first = final)) as [->|Hopen].
  - exists m1. split; [reflexivity|]. intros a b.
    rewrite hits_app, Nat.add_0_r. apply Hget1.
  - destruct (deposit_edge_effect n (amount / length) m1 final first Hsq1)
      as (m2 & H2 & Hsq2 & Hget2).
    { by apply Hroute, last_Some_elem_of. }
    { by apply Hroute, head_Some_elem_of. }
    rewrite H2. exists m2. split; [reflexivity|]. intros a b.
    rewrite Hget2, Hget1, hits_app. simpl hits.
    destruct (mget (Pheromone.trails p) a b) as [x|]; simpl; [|reflexivity].
    by rewrite (Nat.add_comm (hits _ a b)), Nat.iter_add.
Qed.

Lemma deposit_effect_witness :
  exists m',
    Pheromone.deposit Demo.p3 [0; 1; 2; 0] 3 (Some 1%Q) =
    (Ok tt, Pheromone.with_trails Demo.p3 m') /\
    forall a b,
      mget m' a b =
      Nat.iter (hits (deposited_edges [0; 1; 2; 0]) a b)
               (fun x => (x + 1 / 3)%Q)
        <$> mget Demo.p3.(Pheromone.trails) a b.
Proof.
  apply (deposit_effect Demo.p3 3 [0; 1; 2; 0] 3 1).
  - split; [reflexivity|]. repeat constructor.
  - discriminate.
  - repeat constructor.
  - discriminate.
  - discriminate.
Defined.

(** ** A run of the driver *)

(** Three generations of three ants on the unit square: the best length is
    found in the first generation and never grows. *)
Example demo_optimize :
  match Problem.__init__ (R := Demo.demo_runtime) "square" 3 1 2 (1 # 2) 100 0%nat with
  | (Ok p, w) =>
      match Optimization.__init__ p 3 w with
      | (Ok o, w1) =>
          let final := (Optimization.optimize None (o, w1)).2.1 in
          final.(Optimization.best_length) = Finite 4 /\
          map Optimization.entry_best_length final.(Optimization.iteration_history)
          = [Finite 4; Finite 4; Finite 4]
      | _ => False
      end
  | _ => False
  end.
Proof. vm_compute. split; reflexivity. Qed.

Lemma demo_sampler_total : sampler_total Demo.demo_runtime.
Proof.
  intros a p w Hne. simpl. unfold Demo.demo_choice.
  destruct (lookup_lt_is_Some_2 a (w mod length a)) as [x ->]; [|eauto].
  apply Nat.mod_upper_bound. by destruct a.
Qed.

Lemma find_route_completes_witness :
  exists self' w',
    Ant.find_route (R := Demo.demo_runtime) Demo.ant0 Demo.d3
      Demo.p3.(Pheromone.trails) 1%nat = (Ok tt, (self', w')).
Proof.
  apply (@find_route_completes Demo.demo_runtime Demo.demo_runtime_laws
           demo_sampler_total 3 Demo.d3 Demo.p3.(Pheromone.trails)).
  - split; [reflexivity|]. repeat constructor.
  - split; [reflexivity|]. repeat constructor.
  - reflexivity.
  - simpl. lia.
Defined.

(** * Further properties of the code *)

(** ** Pheromone: the stored rate and evaporation *)

Lemma clip_bounds x lo hi :
  (lo <= hi)%Q -> (lo <= clip x lo hi <= hi)%Q.
Proof.
  intros Hle. unfold clip.
  destruct (Qlt_bool x lo) eqn:H1; [split; [apply Qle_refl|done]|].
  apply Qlt_bool_false in H1.
  destruct (Qlt_bool hi x) eqn:H2; [split; [done|apply Qle_refl]|].
  apply Qlt_bool_false in H2. by split.
Qed.

Lemma deposit_keeps_parameters p route length amount :
  (Pheromone.deposit p route length amount).2.(Pheromone.evaporation_rate)
  = p.(Pheromone.evaporation_rate) /\
  (Pheromone.deposit p route length amount).2.(Pheromone.pheromone_deposit)
  = p.(Pheromone.pheromone_deposit).
Proof.
  unfold Pheromone.deposit.
  destruct (Qeq_bool length 0); [done|].
  destruct (Pheromone.deposit_edges _ _ _) as [[[]|e] m]; [|done].
  destruct (head route); [|done]. destruct (last route); [|done].
  case_decide; [done|].
  by destruct (Pheromone.deposit_edge _ m _ _).
Qed.

Lemma reachable_rate p :
  reachable p -> (0 <= p.(Pheromone.evaporation_rate) <= 1)%Q.
Proof.
  induction 1 as [n rate amount|p rate _ IH|p route length amount _ IH].
  - simpl. by apply clip_bounds.
  - simpl. destruct rate; [by apply clip_bounds|done].
  - by rewrite (proj1 (deposit_keeps_parameters p route length amount)).
Qed.

(** In every reachable field the stored evaporation rate lies in [0, 1],
    whatever rates were passed to the constructor and to [evaporate]; so an
    evaporation, with or without an explicit rate, never makes a
    non-negative entry negative and never raises it. *)
Theorem evaporate_shrinks (p : Pheromone.t) (rate : option Q) (i j : nat) (x : Q) :
  reachable p ->
  mget p.(Pheromone.trails) i j = Some x -> (0 <= x)%Q ->
  (0 <= p.(Pheromone.evaporation_rate) <= 1)%Q /\
  exists y,
    mget (Pheromone.evaporate p rate).(Pheromone.trails) i j = Some y /\
    (0 <= y <= x)%Q.
Proof.
  intros Hp Hx Hpos. pose proof (reachable_rate p Hp) as Hrate.
  split; [done|].
  pose proof (reachable_rate _ (reachable_evaporate p rate Hp)) as [Hc0 Hc1].
  simpl in Hc0, Hc1. simpl. rewrite mget_map, Hx. simpl.
  eexists. split; [reflexivity|].
  set (c := match rate with Some r => clip r 0 1 | None => _ end) in *.
  clearbody c. split; nra.
Qed.

Lemma evaporate_shrinks_witness :
  (0 <= (Pheromone.__init__ 3 7 100).(Pheromone.evaporation_rate) <= 1)%Q /\
  exists y,
    mget (Pheromone.evaporate (Pheromone.__init__ 3 7 100) None).(Pheromone.trails) 0 1
    = Some y /\ (0 <= y <= 1 # 10)%Q.
Proof.
  apply (evaporate_shrinks (Pheromone.__init__ 3 7 100) None 0 1 (1 # 10)).
  - constructor.
  - reflexivity.
  - discriminate.
Defined.

(** [evaporate(r)] overwrites the stored rate with the clamped [r]: a later
    [evaporate()] without a rate decays by that rate again, not by the rate
    given to the constructor; [evaporate()] itself leaves the rate alone. *)
Theorem evaporate_rate_is_sticky (p : Pheromone.t) (r : Q) (i j : nat) :
  (Pheromone.evaporate p (Some r)).(Pheromone.evaporation_rate) = clip r 0 1 /\
  (Pheromone.evaporate p None).(Pheromone.evaporation_rate)
  = p.(Pheromone.evaporation_rate) /\
  mget (Pheromone.evaporate (Pheromone.evaporate p (Some r)) None).(Pheromone.trails) i j
  = (fun x => (x * (1 - clip r 0 1) * (1 - clip r 0 1))%Q)
      <$> mget p.(Pheromone.trails) i j.
Proof.
  repeat split. simpl. rewrite !mget_map.
  by destruct (mget (Pheromone.trails p) i j).
Qed.

(** ** Pheromone: deposits on degenerate and invalid routes *)

Lemma with_trails_same p : Pheromone.with_trails p p.(Pheromone.trails) = p.
Proof. by destruct p. Qed.

Lemma consecutive_cons a b rest :
  Pheromone.consecutive (a :: b :: rest) = (a, b) :: Pheromone.consecutive (b :: rest).
Proof. reflexivity. Qed.

(** In a route of two or more nodes every node is an end of some edge. *)
Lemma node_on_consecutive_edge (route : list nat) x :
  2 <= length route -> x ∈ route ->
  Exists (fun e : nat * nat => e.1 = x \/ e.2 = x) (Pheromone.consecutive route).
Proof.
  induction route as [|a [|b rest] IH]; simpl; intros Hlen Hx; [lia|lia|].
  rewrite consecutive_cons.
  apply elem_of_cons in Hx as [->|Hx]; [left; by left|].
  destruct rest as [|c rest].
  - apply list_elem_of_singleton in Hx as ->. left. by right.
  - right. apply IH; [simpl; lia|done].
Qed.

Lemma deposit_edge_out_of_range n d m i j :
  square n m -> ~ (i < n /\ j < n) ->
  Pheromone.deposit_edge d m i j = (Raise IndexError, m).
Proof.
  intros Hsq Hbad. unfold Pheromone.deposit_edge.
  destruct (madd m i j d) as [m1|] eqn:H1; [|done].
  destruct Hbad. apply (madd_is_Some n m i j d Hsq). eauto.
Qed.

Lemma deposit_edges_out_of_range n d edges : forall m,
  square n m ->
  Exists (fun e : nat * nat => ~ (e.1 < n /\ e.2 < n)) edges ->
  (Pheromone.deposit_edges d m edges).1 = Raise IndexError.
Proof.
  induction edges as [|[i j] rest IH]; intros m Hsq Hbad;
    [by apply Exists_nil in Hbad|].
  simpl. destruct (decide (i < n /\ j < n)) as [[Hi Hj]|Hout].
  - destruct (deposit_edge_effect n d m i j Hsq Hi Hj) as (m1 & -> & Hsq1 & _).
    apply IH; [done|].
    apply Exists_cons in Hbad as [Hbad|Hbad]; [|done].
    simpl in Hbad. tauto.
  - by rewrite (deposit_edge_out_of_range n d m i j Hsq Hout).
Qed.

(** With a non-zero length: an empty route raises [IndexError] (from
    [route[0]]) and a one-node route returns normally, also when that node
    is no index of the matrix; either way the field is unchanged.  A route
    of two or more nodes that names a node outside the matrix raises
    [IndexError]. *)
Theorem deposit_degenerate_routes (p : Pheromone.t) (n : nat) (length : Q)
    (amount : option Q) :
  ~ (length == 0)%Q ->
  Pheromone.deposit p [] length amount = (Raise IndexError, p) /\
  (forall x, Pheromone.deposit p [x] length amount = (Ok tt, p)) /\
  (forall route,
     square n p.(Pheromone.trails) -> 2 <= List.length route ->
     Exists (fun x => n <= x) route ->
     (Pheromone.deposit p route length amount).1 = Raise IndexError).
Proof.
  intros Hlen. unfold Pheromone.deposit.
  rewrite (proj2 (Qeq_bool_false length 0) Hlen).
  split; [simpl; by rewrite with_trails_same|].
  split.
  - intros x. simpl. rewrite decide_True by done.
    by rewrite with_trails_same.
  - intros route Hsq Hlen2 Hbad.
    apply Exists_exists in Hbad as (x & Hx & Hge).
    pose proof (node_on_consecutive_edge route x Hlen2 Hx) as Hedge.
    rewrite (surjective_pairing (Pheromone.deposit_edges _ _ _)).
    rewrite (deposit_edges_out_of_range n _ _ _ Hsq); [done|].
    eapply Exists_impl; [exact Hedge|].
    intros [i j]. simpl. intros [->| ->]; lia.
Qed.

Lemma deposit_degenerate_routes_witness :
  Pheromone.deposit Demo.p3 [] 3 None = (Raise IndexError, Demo.p3) /\
  (forall x, Pheromone.deposit Demo.p3 [x] 3 None = (Ok tt, Demo.p3)) /\
  (forall route,
     square 3 Demo.p3.(Pheromone.trails) -> 2 <= List.length route ->
     Exists (fun x => 3 <= x) route ->
     (Pheromone.deposit Demo.p3 route 3 None).1 = Raise IndexError).
Proof.
  apply (deposit_degenerate_routes Demo.p3 3 3 None). discriminate.
Defined.

(** ** Problem: tour length *)

Lemma last_default (route : list nat) (first : nat) :
  route <> [] -> last route = Some (List.last route first).
Proof.
  intros Hne. destruct (last route) as [x|] eqn:Hlast;
    [|by apply last_None in Hlast].
  apply last_Some in Hlast as [l' ->]. by rewrite last_last.
Qed.

Lemma edge_lengths_is_Some n d route :
  square n d -> Forall (fun x => x < n) route ->
  is_Some (Problem.edge_lengths d route).
Proof.
  intros Hsq Hroute. unfold Problem.edge_lengths. apply mapM_is_Some.
  eapply Forall_impl; [apply (consecutive_in_range n route Hroute)|].
  intros [i j] [Hi Hj]. simpl in *. by apply (mget_is_Some n d i j Hsq).
Qed.

(** When the distances are loaded, [get_length] of a non-empty route
    returns a length exactly when every node of the route is an index of the
    matrix; a node outside it raises [IndexError]. *)
Theorem get_length_bounds `{R : Runtime}
    (p : Problem.t) (n : nat) (d : matrix) (route : list nat) :
  p.(Problem.distances) = Some d -> square n d -> route <> [] ->
  (Forall (fun x => x < n) route -> exists len, Problem.get_length p route = Ok len) /\
  (Exists (fun x => n <= x) route -> Problem.get_length p route = Raise IndexError).
Proof.
  intros Hd Hsq Hne. destruct route as [|first rest]; [done|].
  unfold Problem.get_length. rewrite Hd. split.
  - intros Hroute.
    destruct (edge_lengths_is_Some n d _ Hsq Hroute) as [ls ->].
    rewrite Forall_forall in Hroute.
    destruct (proj2 (mget_is_Some n d (List.last (first :: rest) first) first Hsq))
      as [closing ->]; [|eauto].
    split; apply Hroute; [|by left].
    apply last_Some_elem_of. by apply last_default.
  - intros Hbad.
    destruct (decide (2 <= length (first :: rest))) as [Hlen|Hlen].
    + apply Exists_exists in Hbad as (x & Hx & Hge).
      pose proof (node_on_consecutive_edge _ x Hlen Hx) as Hedge.
      unfold Problem.edge_lengths.
      change (zip (removelast (first :: rest)) (tail (first :: rest)))
        with (Pheromone.consecutive (first :: rest)).
      rewrite mapM_None_2; [done|].
      eapply Exists_impl; [exact Hedge|].
      intros [i j] Hij. simpl in *.
      destruct (mget d i j) eqn:Hget; [|done].
      assert (is_Some (mget d i j)) as Hsome by eauto.
      apply (mget_is_Some n d i j Hsq) in Hsome. lia.
    + destruct rest; [|simpl in Hlen; lia]. simpl.
      apply Exists_cons in Hbad as [Hbad|Hbad]; [|by apply Exists_nil in Hbad].
      destruct (mget d first first) eqn:Hget; [|done].
      assert (is_Some (mget d first first)) as Hsome by eauto.
      apply (mget_is_Some n d _ _ Hsq) in Hsome. lia.
Qed.

Lemma get_length_bounds_witness :
  let p := Problem.mk "d3" "Problems/d3.tsp" None (Some Demo.d3) 0 1 1 2 (1 # 2) 100 in
  (Forall (fun x => x < 3) [2; 0; 1] ->
   exists len, Problem.get_length (R := Demo.demo_runtime) p [2; 0; 1] = Ok len) /\
  (Exists (fun x => 3 <= x) [2; 0; 1] ->
   Problem.get_length (R := Demo.demo_runtime) p [2; 0; 1] = Raise IndexError).
Proof.
  apply (get_length_bounds (R := Demo.demo_runtime)
           (Problem.mk "d3" "Problems/d3.tsp" None (Some Demo.d3) 0 1 1 2 (1 # 2) 100)
           3 Demo.d3 [2; 0; 1]).
  - reflexivity.
  - split; [reflexivity|]. repeat constructor.
  - discriminate.
Defined.

(** ** Problem: the distance matrix *)

Lemma mget_compute_distance_matrix `{R : Runtime} (nodes : list node) i j :
  mget (Problem.compute_distance_matrix nodes) i j =
  a ← nodes !! i; b ← nodes !! j;
  Some (np_sqrt ((node_x a - node_x b) ^ 2 + (node_y a - node_y b) ^ 2)%Q).
Proof.
  unfold mget, Problem.compute_distance_matrix. rewrite lookup_map.
  destruct (nodes !! i) as [a|]; simpl; [|done].
  rewrite lookup_map. by destruct (nodes !! j).
Qed.

(** For a file with at least one node, and a square root that behaves as
    one, the distance matrix has one row and one column per node, a zero
    diagonal, equal entries at [(i, j)] and [(j, i)], and no negative
    entry. *)
Theorem distance_matrix_shape `{R : Runtime} (nodes : list node) :
  sqrt_laws R -> nodes <> [] ->
  square (length nodes) (Problem.compute_distance_matrix nodes) /\
  (forall i x, mget (Problem.compute_distance_matrix nodes) i i = Some x ->
               (x == 0)%Q) /\
  (forall i j x y,
     mget (Problem.compute_distance_matrix nodes) i j = Some x ->
     mget (Problem.compute_distance_matrix nodes) j i = Some y -> (x == y)%Q) /\
  (forall i j x, mget (Problem.compute_distance_matrix nodes) i j = Some x ->
                 (0 <= x)%Q).
Proof.
  intros (Hproper & Hzero & Hpos) _. repeat split.
  - unfold Problem.compute_distance_matrix. by rewrite length_map.
  - unfold Problem.compute_distance_matrix. apply Forall_forall.
    intros row Hrow. apply list_elem_of_In, in_map_iff in Hrow as (a & <- & _).
    by rewrite length_map.
  - intros i x. rewrite mget_compute_distance_matrix.
    destruct (nodes !! i) as [a|]; simpl; [|done]. intros [= <-].
    rewrite <- Hzero. apply Hproper. ring.
  - intros i j x y. rewrite !mget_compute_distance_matrix.
    destruct (nodes !! i) as [a|]; simpl; [|done].
    destruct (nodes !! j) as [b|]; simpl; [|done].
    intros [= <-] [= <-]. apply Hproper. ring.
  - intros i j x. rewrite mget_compute_distance_matrix.
    destruct (nodes !! i) as [a|]; simpl; [|done].
    destruct (nodes !! j) as [b|]; simpl; [|done].
    intros [= <-]. apply Hpos.
Qed.

Lemma demo_sqrt_laws : sqrt_laws Demo.demo_runtime.
Proof.
  split; [|split].
  - intros x y Hxy. simpl.
    pose proof (Qfloor_comp x y Hxy) as Hfloor. unfold Qfloor in Hfloor.
    destruct x as [xn xd], y as [yn yd]. simpl in *. by rewrite Hfloor.
  - reflexivity.
  - intros x. simpl. unfold Qle. simpl.
    pose proof (Z.sqrt_nonneg (Qnum x / Z.pos (Qden x))). lia.
Qed.

Lemma distance_matrix_shape_witness :
  square (length Demo.unit_square)
    (Problem.compute_distance_matrix (R := Demo.demo_runtime) Demo.unit_square) /\
  (forall i x,
     mget (Problem.compute_distance_matrix (R := Demo.demo_runtime) Demo.unit_square) i i
     = Some x -> (x == 0)%Q) /\
  (forall i j x y,
     mget (Problem.compute_distance_matrix (R := Demo.demo_runtime) Demo.unit_square) i j
     = Some x ->
     mget (Problem.compute_distance_matrix (R := Demo.demo_runtime) Demo.unit_square) j i
     = Some y -> (x == y)%Q) /\
  (forall i j x,
     mget (Problem.compute_distance_matrix (R := Demo.demo_runtime) Demo.unit_square) i j
     = Some x -> (0 <= x)%Q).
Proof.
  apply (distance_matrix_shape (R := Demo.demo_runtime) Demo.unit_square).
  - exact demo_sqrt_laws.
  - discriminate.
Defined.

(** ** Colony: ranking the ants *)

#[local] Instance no_longer_than_trans : Transitive no_longer_than.
Proof. intros a b c. apply Qle_trans. Qed.

Lemma insert_sorted_perm a l : Colony.insert_sorted a l ≡ₚ a :: l.
Proof.
  induction l as [|b rest IH]; simpl; [done|].
  destruct (Qle_bool _ _); [done|].
  rewrite IH. apply Permutation_swap.
Qed.

Lemma insert_sorted_sorted a l :
  StronglySorted no_longer_than l ->
  StronglySorted no_longer_than (Colony.insert_sorted a l).
Proof.
  induction 1 as [|b rest Hs IH Hb]; simpl; [by repeat constructor|].
  destruct (Qle_bool _ _) eqn:Hle.
  - apply Qle_bool_iff in Hle. constructor; [by constructor|].
    constructor; [done|].
    eapply Forall_impl; [exact Hb|]. intros c Hc. by transitivity b.
  - constructor; [done|].
    rewrite insert_sorted_perm. constructor; [|done].
    unfold no_longer_than. apply Qlt_le_weak, Qnot_le_lt.
    intros Hab. apply Qle_bool_iff in Hab. congruence.
Qed.

Lemma insert_sorted_stable v a l :
  ants_of_distance v (Colony.insert_sorted a l) = ants_of_distance v (a :: l).
Proof.
  unfold ants_of_distance.
  induction l as [|b rest IH]; simpl; [done|].
  destruct (Qle_bool _ _) eqn:Hle; [done|].
  simpl in *. rewrite IH.
  destruct (Qeq_bool (Ant.total_distance a) v) eqn:Ha; [|done].
  destruct (Qeq_bool (Ant.total_distance b) v) eqn:Hb; [|done].
  apply Qeq_bool_iff in Ha, Hb.
  assert (Qle_bool (Ant.total_distance a) (Ant.total_distance b) = true); [|congruence].
  apply Qle_bool_iff. rewrite Ha, Hb. apply Qle_refl.
Qed.

(** [sorted] rearranges the ants in non-decreasing total distance and
    keeps ants of equal distance in their original order; so each of its
    first five is no longer than every later one. *)
Lemma sorted_spec (ants : list Ant.t) :
  Colony.sorted ants ≡ₚ ants /\
  StronglySorted no_longer_than (Colony.sorted ants) /\
  (forall v, ants_of_distance v (Colony.sorted ants) = ants_of_distance v ants) /\
  length (take 5 (Colony.sorted ants)) = Nat.min 5 (length ants) /\
  (forall a b, a ∈ take 5 (Colony.sorted ants) -> b ∈ drop 5 (Colony.sorted ants) ->
               no_longer_than a b).
Proof.
  assert (Colony.sorted ants ≡ₚ ants) as Hperm.
  { induction ants as [|a rest IH]; simpl; [done|].
    by rewrite insert_sorted_perm, IH. }
  assert (StronglySorted no_longer_than (Colony.sorted ants)) as Hsorted.
  { induction ants as [|a rest IH]; simpl; [constructor|].
    apply insert_sorted_sorted, IH.
    clear -rest. induction rest as [|a rest IH]; simpl; [done|].
    by rewrite insert_sorted_perm, IH. }
  split; [done|]. split; [done|]. split; [|split].
  - intros v. clear. induction ants as [|a rest IH]; simpl; [done|].
    rewrite insert_sorted_stable. unfold ants_of_distance in *. simpl.
    by rewrite IH.
  - rewrite length_take, Hperm. reflexivity.
  - intros a b Ha Hb. rewrite <- (take_drop 5 (Colony.sorted ants)) in Hsorted.
    by eapply StronglySorted_app_1_elem_of.
Qed.

(** [_update_pheromones] evaporates the field at its stored rate and then
    deposits, one after the other, for the elite and for no other ant.  The
    elite is the first five (all, when there are fewer) of the ants put in
    non-decreasing total distance, ants of equal distance keeping the order
    they have in the colony; so every ant that deposits is no longer than
    every ant that does not.  The outcome is the one of the deposits, and
    nothing but the pheromone field changes. *)
Theorem update_pheromones_deposits_elite `{R : Runtime} (st : Colony.t * World) :
  exists elite others,
    elite ++ others ≡ₚ st.1.(Colony.ants) /\
    StronglySorted no_longer_than (elite ++ others) /\
    (forall v, ants_of_distance v (elite ++ others)
               = ants_of_distance v st.1.(Colony.ants)) /\
    length elite = Nat.min 5 (length st.1.(Colony.ants)) /\
    (forall a b, a ∈ elite -> b ∈ others -> no_longer_than a b) /\
    Colony._update_pheromones st
    = ((Colony.deposit_all elite
          (Pheromone.evaporate st.1.(Colony.pheromones) None)).1,
       (Colony.set_pheromones st.1
          (Colony.deposit_all elite
             (Pheromone.evaporate st.1.(Colony.pheromones) None)).2,
        st.2)).
Proof.
  destruct (sorted_spec st.1.(Colony.ants))
    as (Hperm & Hsorted & Hstable & Hlen & Hfirst).
  exists (take 5 (Colony.sorted st.1.(Colony.ants))),
         (drop 5 (Colony.sorted st.1.(Colony.ants))).
  rewrite take_drop. repeat (split; [assumption|]).
  unfold Colony._update_pheromones.
  by destruct (Colony.deposit_all _ _).
Qed.

(** ** Colony: what an iteration keeps *)

(** The demo colony is the one [Colony.__init__] builds. *)
Example demo_colony_init :
  Problem.__init__ (R := Demo.demo_runtime) "square" 3 1 2 (1 # 2) 100 0%nat
  = (Ok demo_problem, 0%nat) /\
  Colony.__init__ (R := Demo.demo_runtime) demo_problem 0%nat = (Ok demo_colony, 3%nat).
Proof. split; vm_compute; reflexivity. Qed.

Lemma bind_Ok_inv {S A B} (m : M S A) (k : A -> M S B) s b s' :
  bind m k s = (Ok b, s') ->
  exists a s1, m s = (Ok a, s1) /\ k a s1 = (Ok b, s').
Proof.
  unfold bind. destruct (m s) as [[a|e] s1]; [eauto|discriminate].
Qed.

Lemma deposit_all_shape `{R : Runtime} n top_ants : forall p,
  square n p.(Pheromone.trails) -> symmetric p.(Pheromone.trails) ->
  square n (Colony.deposit_all top_ants p).2.(Pheromone.trails) /\
  symmetric (Colony.deposit_all top_ants p).2.(Pheromone.trails).
Proof.
  induction top_ants as [|ant rest IH]; intros p Hsq Hsym; [done|].
  simpl. unfold bind.
  destruct (deposit_invariant n p ant.(Ant.route) ant.(Ant.total_distance) None
              Hsq Hsym) as [Hsq1 Hsym1].
  destruct (Pheromone.deposit p _ _ None) as [[[]|e] p1]; simpl in *; [|done].
  by apply IH.
Qed.

Section ColonyShape.
Context {R : Runtime}.
Variable n : nat.

Let shape_rel (s s' : Colony.t * World) : Prop :=
  square n s.1.(Colony.pheromones).(Pheromone.trails) /\
  symmetric s.1.(Colony.pheromones).(Pheromone.trails) ->
  square n s'.1.(Colony.pheromones).(Pheromone.trails) /\
  symmetric s'.1.(Colony.pheromones).(Pheromone.trails).

Local Lemma shape_rel_refl s : shape_rel s s.
Proof. by intros ?. Qed.

Local Lemma shape_rel_trans s1 s2 s3 :
  shape_rel s1 s2 -> shape_rel s2 s3 -> shape_rel s1 s3.
Proof. unfold shape_rel. tauto. Qed.

Lemma construct_and_compare_shape i :
  preserves shape_rel (Colony.construct_and_compare i).
Proof.
  intros s. unfold Colony.construct_and_compare.
  destruct (Colony.ants s.1 !! i) as [ant|]; [|apply shape_rel_refl].
  destruct (match Problem.distances (Colony.problem s.1) with
            | Some d => _ | None => _ end) as [r [ant' w']].
  destruct r as [[]|e]; [|by intros ?].
  destruct (Problem.get_length _ _) as [route_length|e]; [|by intros ?].
  destruct (lt_efloat _ _); by intros ?.
Qed.

Lemma update_pheromones_shape : preserves shape_rel Colony._update_pheromones.
Proof.
  intros s [Hsq Hsym]. unfold Colony._update_pheromones.
  pose proof (deposit_all_shape n (take 5 (Colony.sorted (Colony.ants s.1)))
                (Pheromone.evaporate (Colony.pheromones s.1) None)) as H.
  destruct (Colony.deposit_all _ _) as [r p']. simpl in *. apply H.
  - by apply square_map.
  - intros i j. by rewrite !mget_map, Hsym.
Qed.

Lemma now_shape : preserves shape_rel Colony.now.
Proof.
  intros s. unfold Colony.now. destruct (time_time s.2). by intros ?.
Qed.

Lemma run_iteration_shape : preserves shape_rel Colony.run_iteration.
Proof.
  unfold Colony.run_iteration.
  apply (preserves_bind shape_rel shape_rel_trans); [|intros _].
  { apply (preserves_bind shape_rel shape_rel_trans); [apply now_shape|intros x].
    apply preserves_modify. intros s. by intros ?. }
  apply (preserves_bind shape_rel shape_rel_trans); [|intros _].
  { unfold Colony._perform_iteration.
    apply (preserves_bind shape_rel shape_rel_trans);
      [apply (preserves_gets shape_rel shape_rel_refl)|intros k].
    apply (preserves_bind shape_rel shape_rel_trans); [|intros _].
    { apply (preserves_for_each shape_rel shape_rel_refl shape_rel_trans).
      apply construct_and_compare_shape. }
    apply (preserves_bind shape_rel shape_rel_trans);
      [apply update_pheromones_shape|intros _].
    apply preserves_modify. intros s. by intros ?. }
  apply (preserves_bind shape_rel shape_rel_trans); [|intros _].
  { unfold Colony._finalize_iteration.
    apply (preserves_bind shape_rel shape_rel_trans); [apply now_shape|intros x].
    apply (preserves_bind shape_rel shape_rel_trans);
      [apply (preserves_gets shape_rel shape_rel_refl)|intros started].
    destruct started; [|apply (preserves_raise shape_rel shape_rel_refl)].
    apply preserves_modify. intros s. by intros ?. }
  apply (preserves_gets shape_rel shape_rel_refl).
Qed.

End ColonyShape.

(** An iteration of the colony, also one that raises, leaves the pheromone
    matrix as large as it was and symmetric: evaporation and the elite
    deposits keep both. *)
Theorem run_iteration_keeps_pheromone_shape `{R : Runtime} (n : nat)
    (st : Colony.t * World) :
  square n st.1.(Colony.pheromones).(Pheromone.trails) ->
  symmetric st.1.(Colony.pheromones).(Pheromone.trails) ->
  square n (Colony.run_iteration st).2.1.(Colony.pheromones).(Pheromone.trails) /\
  symmetric (Colony.run_iteration st).2.1.(Colony.pheromones).(Pheromone.trails).
Proof.
  intros Hsq Hsym. by apply (run_iteration_shape n st).
Qed.

Lemma run_iteration_keeps_pheromone_shape_witness :
  square 4
    (Colony.run_iteration (R := Demo.demo_runtime) (demo_colony, 3%nat)).2.1
      .(Colony.pheromones).(Pheromone.trails) /\
  symmetric
    (Colony.run_iteration (R := Demo.demo_runtime) (demo_colony, 3%nat)).2.1
      .(Colony.pheromones).(Pheromone.trails).
Proof.
  apply (run_iteration_keeps_pheromone_shape (R := Demo.demo_runtime) 4
           (demo_colony, 3%nat)).
  - apply square_np_full.
  - intros i j. simpl. rewrite !mget_np_full.
    repeat case_decide; try reflexivity; exfalso; intuition.
Defined.

(** A relation kept by each elementary step of [run_iteration] is kept by
    [run_iteration]. *)
Lemma run_iteration_preserves `{R : Runtime}
    (rel : Colony.t * World -> Colony.t * World -> Prop) :
  (forall s, rel s s) ->
  (forall s1 s2 s3, rel s1 s2 -> rel s2 s3 -> rel s1 s3) ->
  (forall s w', rel s (s.1, w')) ->
  (forall s x, rel s (Colony.start_iteration s.1 x, s.2)) ->
  (forall i, preserves rel (Colony.construct_and_compare i)) ->
  preserves rel Colony._update_pheromones ->
  (forall s, rel s (Colony.set_ants s.1 (map Ant.reset s.1.(Colony.ants)), s.2)) ->
  (forall s t, rel s (Colony.record_iteration s.1 t, s.2)) ->
  preserves rel Colony.run_iteration.
Proof.
  intros Hrefl Htrans Hworld Hstart Hcc Hup Hreset Hrecord.
  assert (preserves rel Colony.now) as Hnow.
  { intros s. unfold Colony.now. destruct (time_time s.2). apply Hworld. }
  unfold Colony.run_iteration.
  apply (preserves_bind rel Htrans); [|intros _].
  { apply (preserves_bind rel Htrans); [apply Hnow|intros x].
    apply preserves_modify. intros s. apply Hstart. }
  apply (preserves_bind rel Htrans); [|intros _].
  { unfold Colony._perform_iteration.
    apply (preserves_bind rel Htrans); [apply (preserves_gets rel Hrefl)|intros k].
    apply (preserves_bind rel Htrans); [|intros _].
    { apply (preserves_for_each rel Hrefl Htrans). apply Hcc. }
    apply (preserves_bind rel Htrans); [apply Hup|intros _].
    apply preserves_modify. apply Hreset. }
  apply (preserves_bind rel Htrans); [|intros _].
  { unfold Colony._finalize_iteration.
    apply (preserves_bind rel Htrans); [apply Hnow|intros x].
    apply (preserves_bind rel Htrans); [apply (preserves_gets rel Hrefl)|intros started].
    destruct started; [|apply (preserves_raise rel Hrefl)].
    apply preserves_modify. intros s. apply Hrecord. }
  apply (preserves_gets rel Hrefl).
Qed.

(** Whenever the colony has a finite best length, it is the tour length
    [get_length] gives for its best route; an iteration, also one that
    raises, keeps that, and keeps the problem. *)
Theorem best_length_is_length_of_best_route `{R : Runtime} (st : Colony.t * World) :
  best_consistent st.1 ->
  best_consistent (Colony.run_iteration st).2.1 /\
  (Colony.run_iteration st).2.1.(Colony.problem) = st.1.(Colony.problem).
Proof.
  pose (rel := fun s s' : Colony.t * World =>
                 best_consistent s.1 ->
                 best_consistent s'.1 /\
                 s'.1.(Colony.problem) = s.1.(Colony.problem)).
  assert (preserves rel Colony.run_iteration) as H; [|apply H].
  apply run_iteration_preserves; unfold rel.
  - by intros s ?.
  - intros s1 s2 s3 H12 H23 H1. destruct (H12 H1) as [H2 E2].
    destruct (H23 H2) as [H3 E3]. split; [done|congruence].
  - by intros s w' ?.
  - by intros s x ?.
  - intros i s Hs. unfold Colony.construct_and_compare.
    destruct (Colony.ants s.1 !! i) as [ant|]; [|done].
    destruct (match Problem.distances (Colony.problem s.1) with
              | Some d => _ | None => _ end) as [r [ant' w']].
    destruct r as [[]|e]; [|done].
    destruct (Problem.get_length _ _) as [route_length|e] eqn:Hlen; [|done].
    destruct (lt_efloat _ _); [|done].
    split; [|done]. intros len. simpl. by intros [= <-].
  - intros s Hs. unfold Colony._update_pheromones.
    by destruct (Colony.deposit_all _ _).
  - by intros s ?.
  - by intros s t ?.
Qed.

Lemma best_length_is_length_of_best_route_witness :
  best_consistent (R := Demo.demo_runtime)
    (Colony.run_iteration (R := Demo.demo_runtime) (demo_colony, 3%nat)).2.1 /\
  (Colony.run_iteration (R := Demo.demo_runtime) (demo_colony, 3%nat)).2.1
    .(Colony.problem) = demo_problem.
Proof.
  apply (best_length_is_length_of_best_route (R := Demo.demo_runtime)
           (demo_colony, 3%nat)).
  intros len. discriminate.
Defined.

(** ** Colony: what a successful iteration returns *)

Lemma same_bookkeeping_refl `{R : Runtime} (s : Colony.t * World) :
  same_bookkeeping s s.
Proof. by repeat split. Qed.

Lemma same_bookkeeping_trans `{R : Runtime} (s1 s2 s3 : Colony.t * World) :
  same_bookkeeping s1 s2 -> same_bookkeeping s2 s3 -> same_bookkeeping s1 s3.
Proof.
  intros (?&?&?&?&?) (?&?&?&?&?). repeat split; congruence.
Qed.

Lemma construct_and_compare_bookkeeping `{R : Runtime} i :
  preserves same_bookkeeping (Colony.construct_and_compare i).
Proof.
  intros s. unfold Colony.construct_and_compare.
  destruct (Colony.ants s.1 !! i) as [ant|]; [|apply same_bookkeeping_refl].
  destruct (match Problem.distances (Colony.problem s.1) with
            | Some d => _ | None => _ end) as [r [ant' w']].
  assert (same_bookkeeping s
            (Colony.set_ants s.1 (<[i:=ant']> (Colony.ants s.1)), w')) as Hset.
  { repeat split. simpl. apply length_insert. }
  destruct r as [[]|e]; [|done].
  destruct (Problem.get_length _ _) as [route_length|e]; [|done].
  destruct (lt_efloat _ _); [|done].
  destruct Hset as (?&?&?&?&?). by repeat split.
Qed.

Lemma update_pheromones_bookkeeping `{R : Runtime} :
  preserves same_bookkeeping Colony._update_pheromones.
Proof.
  intros s. unfold Colony._update_pheromones.
  destruct (Colony.deposit_all _ _). by repeat split.
Qed.

Lemma improves_finite {A} (old new : A * efloat) x :
  improves old new -> old.2 = Finite x -> exists y, new.2 = Finite y.
Proof.
  intros [->|Hlt] Hold; [eauto|].
  rewrite Hold in Hlt. destruct new.2; [eauto|done].
Qed.

(** After an ant has been compared, the best length is finite. *)
Lemma construct_and_compare_finite `{R : Runtime} i s s' :
  Colony.construct_and_compare i s = (Ok tt, s') ->
  exists x, s'.1.(Colony.best_length) = Finite x.
Proof.
  unfold Colony.construct_and_compare.
  destruct (Colony.ants s.1 !! i) as [ant|]; [|discriminate].
  destruct (match Problem.distances (Colony.problem s.1) with
            | Some d => _ | None => _ end) as [r [ant' w']].
  destruct r as [[]|e]; [|discriminate].
  destruct (Problem.get_length _ _) as [route_length|e]; [|discriminate].
  destruct (lt_efloat _ _) eqn:Hlt; intros [= <-]; simpl; [eauto|].
  simpl in Hlt. revert Hlt.
  destruct (Colony.best_length s.1); [eauto|discriminate].
Qed.

(** What [_perform_iteration] has done when it returns normally. *)
Lemma perform_iteration_Ok `{R : Runtime} s s' :
  Colony._perform_iteration s = (Ok tt, s') ->
  same_bookkeeping s s' /\
  Forall is_reset s'.1.(Colony.ants) /\
  (s.1.(Colony.ants) <> [] -> exists x, s'.1.(Colony.best_length) = Finite x).
Proof.
  unfold Colony._perform_iteration. intros Hrun.
  apply bind_Ok_inv in Hrun as (k & s0 & Hk & Hrun).
  injection Hk as <- <-.
  apply bind_Ok_inv in Hrun as ([] & s1 & Hloop & Hrun).
  apply bind_Ok_inv in Hrun as ([] & s2 & Hup & Hrun).
  injection Hrun as <-.
  pose proof (preserves_for_each same_bookkeeping same_bookkeeping_refl
                same_bookkeeping_trans (seq 0 (length (Colony.ants s.1)))
                Colony.construct_and_compare construct_and_compare_bookkeeping s)
    as H1.
  rewrite Hloop in H1. simpl in H1.
  pose proof (update_pheromones_bookkeeping s1) as H2. rewrite Hup in H2.
  simpl in H2.
  pose proof (same_bookkeeping_trans _ _ _ H1 H2) as (Hc & Hh & Ht & Hs & Hl).
  split; [|split].
  - repeat split; simpl; try done. by rewrite length_map.
  - simpl. apply Forall_forall. intros a Ha.
    apply list_elem_of_In, in_map_iff in Ha as (a0 & <- & _). by repeat split.
  - intros Hne. simpl.
    destruct (Colony.ants s.1) as [|a0 rest] eqn:Hants; [done|].
    simpl in Hloop.
    apply bind_Ok_inv in Hloop as ([] & sa & Hfirst & Hrest).
    apply construct_and_compare_finite in Hfirst as [x Hx].
    pose proof (preserves_for_each _ colony_rel_refl colony_rel_trans
                  (seq 1 (length rest)) Colony.construct_and_compare
                  construct_and_compare_monotone sa) as M1.
    rewrite Hrest in M1. simpl in M1.
    pose proof (update_pheromones_monotone s1) as M2. rewrite Hup in M2.
    simpl in M2.
    destruct (improves_finite _ _ x M1 Hx) as [y Hy].
    exact (improves_finite _ _ y M2 Hy).
Qed.

(** When [run_iteration] returns normally it returns the colony's best
    route and length; the iteration counter has grown by one; the history
    has one more entry, which carries the new counter and the best length;
    every ant has been reset, so no ant holds its route any longer; and with
    at least one ant the best length is finite. *)
Theorem run_iteration_result `{R : Runtime} (st st' : Colony.t * World)
    (found : list nat * efloat) :
  Colony.run_iteration st = (Ok found, st') ->
  found = colony_best st'.1 /\
  st'.1.(Colony.current_iteration) = st.1.(Colony.current_iteration) + 1 /\
  (exists t,
     st'.1.(Colony.total_time_ms) = (st.1.(Colony.total_time_ms) + t)%Q /\
     st'.1.(Colony.iteration_history) =
     st.1.(Colony.iteration_history) ++
       [Colony.mk_entry (st.1.(Colony.current_iteration) + 1) t
          (st.1.(Colony.total_time_ms) + t)%Q st'.1.(Colony.best_length)]) /\
  length st'.1.(Colony.ants) = length st.1.(Colony.ants) /\
  Forall is_reset st'.1.(Colony.ants) /\
  (st.1.(Colony.ants) <> [] -> exists x, st'.1.(Colony.best_length) = Finite x).
Proof.
  unfold Colony.run_iteration. intros Hrun.
  apply bind_Ok_inv in Hrun as ([] & s1 & Hprep & Hrun).
  apply bind_Ok_inv in Hrun as ([] & s2 & Hperf & Hrun).
  apply bind_Ok_inv in Hrun as ([] & s3 & Hfin & Hrun).
  injection Hrun as <- <-.
  unfold Colony._prepare_iteration, bind, Colony.now, modify in Hprep.
  destruct (time_time st.2) as [x0 w0]. injection Hprep as <-.
  apply perform_iteration_Ok in Hperf as ((Hc & Hh & Ht & Hs & Hl) & Hreset & Hfinite).
  simpl in Hc, Hh, Ht, Hs, Hl, Hfinite.
  unfold Colony._finalize_iteration, bind, Colony.now, gets, modify in Hfin.
  destruct (time_time s2.2) as [x1 w1]. simpl in Hfin. rewrite Hs in Hfin.
  injection Hfin as <-. simpl.
  split; [done|]. split; [done|]. split; [|by repeat split].
  exists ((x1 - x0) * 1000)%Q. by rewrite Ht, Hh, Hc.
Qed.

Lemma run_iteration_result_witness :
  let st' := (Colony.run_iteration (R := Demo.demo_runtime) (demo_colony, 3%nat)).2 in
  ([0; 2; 3; 1; 0], Finite 4) = colony_best st'.1 /\
  st'.1.(Colony.current_iteration) = 0 + 1 /\
  (exists t,
     st'.1.(Colony.total_time_ms) = (0 + t)%Q /\
     st'.1.(Colony.iteration_history) =
     [] ++ [Colony.mk_entry (0 + 1) t (0 + t)%Q st'.1.(Colony.best_length)]) /\
  length st'.1.(Colony.ants) = 3 /\
  Forall is_reset st'.1.(Colony.ants) /\
  (demo_colony.(Colony.ants) <> [] -> exists x, st'.1.(Colony.best_length) = Finite x).
Proof.
  apply (run_iteration_result (R := Demo.demo_runtime) (demo_colony, 3%nat)
           (Colony.run_iteration (R := Demo.demo_runtime) (demo_colony, 3%nat)).2
           ([0; 2; 3; 1; 0], Finite 4)).
  vm_compute. reflexivity.
Defined.

(** ** Optimization: the driver follows the colony *)

Lemma efloat_ltb_irrefl a : Optimization.efloat_ltb a a = false.
Proof.
  destruct a as [x|]; simpl; [|done].
  apply Qlt_bool_false, Qle_refl.
Qed.

Lemma efloat_ltb_complete a b : efloat_lt a b -> Optimization.efloat_ltb a b = true.
Proof.
  destruct a as [x|], b as [y|]; simpl; try done. apply Qlt_bool_iff.
Qed.

Lemma run_iteration_returns_best `{R : Runtime} st found st' :
  Colony.run_iteration st = (Ok found, st') -> found = colony_best st'.1.
Proof.
  unfold Colony.run_iteration. intros Hrun.
  apply bind_Ok_inv in Hrun as ([] & s1 & _ & Hrun).
  apply bind_Ok_inv in Hrun as ([] & s2 & _ & Hrun).
  apply bind_Ok_inv in Hrun as ([] & s3 & _ & Hrun).
  by injection Hrun as <- <-.
Qed.

(** What one turn of the loop of [optimize] has done when it returns
    normally. *)
Lemma optimize_iteration_Ok `{R : Runtime} callback iteration st st' :
  Optimization.optimize_iteration callback iteration st = (Ok tt, st') ->
  (driver_in_step st.1 -> driver_in_step st'.1) /\
  st'.1.(Optimization.num_iterations) = st.1.(Optimization.num_iterations) /\
  st'.1.(Optimization.iteration_history) =
  st.1.(Optimization.iteration_history) ++
    [Optimization.mk_entry iteration st'.1.(Optimization.best_route)
       st'.1.(Optimization.best_length)] /\
  improves (driver_best st.1) (driver_best st'.1).
Proof.
  intros Hrun.
  pose proof (optimize_iteration_monotone callback iteration st) as [Himp _].
  rewrite Hrun in Himp. simpl in Himp.
  unfold Optimization.optimize_iteration in Hrun.
  apply bind_Ok_inv in Hrun as (found & s1 & Hcol & Hrun).
  apply bind_Ok_inv in Hrun as ([] & s2 & Hmod & Hrun).
  apply bind_Ok_inv in Hrun as ([] & s3 & Happ & Hrun).
  injection Hmod as <-. injection Happ as <-.
  unfold Optimization.colony_run_iteration in Hcol.
  pose proof (run_iteration_monotone (Optimization.colony st.1, st.2)) as Hmono.
  destruct (Colony.run_iteration _) as [r [c w']] eqn:Hiter.
  injection Hcol as -> <-.
  apply run_iteration_returns_best in Hiter. simpl in Hiter, Hmono.
  assert (st'.1 = (if Optimization.efloat_ltb found.2 (Optimization.best_length st.1)
                   then Optimization.append_history
                          (Optimization.set_best (Optimization.set_colony st.1 c)
                             found.2 found.1) iteration
                   else Optimization.append_history
                          (Optimization.set_colony st.1 c) iteration)) as Hst'.
  { destruct callback as [f|].
    - simpl in Hrun. destruct (Optimization.efloat_ltb _ _); simpl in Hrun;
        destruct (f _ _) as [r' w2]; by injection Hrun as _ <-.
    - simpl in Hrun. destruct (Optimization.efloat_ltb _ _); simpl in Hrun;
        by injection Hrun as <-. }
  subst found. simpl in Hst'.
  split; [|split; [|split]]; [| | |done].
  - intros [Hlen Hroute]. rewrite Hst'. unfold driver_in_step.
    destruct Hmono as [Heq|Hlt].
    + injection Heq as Hr Hl.
      assert (Optimization.efloat_ltb (Colony.best_length c)
                (Optimization.best_length st.1) = false) as ->
        by (rewrite Hl, <- Hlen; apply efloat_ltb_irrefl).
      simpl. split; [congruence|]. intros x Hx. rewrite Hr. by apply (Hroute x).
    + simpl in Hlt. rewrite <- Hlen in Hlt.
      rewrite (efloat_ltb_complete _ _ Hlt). simpl. by split.
  - rewrite Hst'. by destruct (Optimization.efloat_ltb _ _).
  - rewrite Hst'. by destruct (Optimization.efloat_ltb _ _).
Qed.

Lemma optimize_loop_in_step `{R : Runtime} callback iterations : forall st st',
  for_each iterations (Optimization.optimize_iteration callback) st = (Ok tt, st') ->
  driver_in_step st.1 -> driver_in_step st'.1.
Proof.
  induction iterations as [|k rest IH]; intros st st' Hrun Hstep; simpl in Hrun.
  - by injection Hrun as <-.
  - apply bind_Ok_inv in Hrun as ([] & s1 & Hfirst & Hrest).
    apply optimize_iteration_Ok in Hfirst as (Hkeep & _).
    eapply IH; [exact Hrest|]. by apply Hkeep.
Qed.

(** Along a run of [optimize] that returns normally the driver's best
    solution stays the colony's own: the length and route the driver ends
    with are those the colony holds. *)
Theorem driver_follows_colony `{R : Runtime}
    (callback : option (Optimization.progress -> M World unit))
    (st st' : Optimization.t * World) :
  Optimization.optimize callback st = (Ok tt, st') ->
  driver_in_step st.1 -> driver_in_step st'.1.
Proof.
  unfold Optimization.optimize. intros Hrun.
  apply bind_Ok_inv in Hrun as (k & s0 & Hk & Hrun). injection Hk as <- <-.
  by eapply optimize_loop_in_step.
Qed.

Lemma driver_follows_colony_witness :
  driver_in_step
    (Optimization.optimize (R := Demo.demo_runtime) None (demo_driver, 3%nat)).2.1.
Proof.
  apply (driver_follows_colony (R := Demo.demo_runtime) None (demo_driver, 3%nat)
           (Optimization.optimize (R := Demo.demo_runtime) None (demo_driver, 3%nat)).2).
  - vm_compute. reflexivity.
  - split; [reflexivity|]. intros x. discriminate.
Defined.

(** ** Optimization: the history *)

Lemma efloat_le_trans a b c : efloat_le a b -> efloat_le b c -> efloat_le a c.
Proof. destruct a, b, c; simpl; try done. apply Qle_trans. Qed.

Lemma optimize_loop_history `{R : Runtime} callback n : forall a st st',
  for_each (seq a n) (Optimization.optimize_iteration callback) st = (Ok tt, st') ->
  improves (driver_best st.1) (driver_best st'.1) /\
  exists entries,
    st'.1.(Optimization.iteration_history)
    = st.1.(Optimization.iteration_history) ++ entries /\
    map Optimization.iteration entries = seq a n /\
    non_increasing entries /\
    Forall (fun e => efloat_le e.(Optimization.entry_best_length)
                       st.1.(Optimization.best_length)) entries /\
    (forall e, last entries = Some e ->
               e.(Optimization.entry_best_length) = st'.1.(Optimization.best_length) /\
               e.(Optimization.entry_best_route) = st'.1.(Optimization.best_route)).
Proof.
  induction n as [|n IH]; intros a st st' Hrun; simpl in Hrun.
  - injection Hrun as <-. split; [apply improves_refl|].
    exists []. rewrite app_nil_r. repeat split; try done; constructor.
  - apply bind_Ok_inv in Hrun as ([] & s1 & Hfirst & Hrest).
    apply optimize_iteration_Ok in Hfirst as (_ & _ & Hhist1 & Himp1).
    destruct (IH (S a) s1 st' Hrest)
      as (Himp & rest & Hhist & Hnum & Hsorted & Hbound & Hlast).
    split; [by eapply improves_trans|].
    exists (Optimization.mk_entry a s1.1.(Optimization.best_route)
              s1.1.(Optimization.best_length) :: rest).
    split; [|split; [|split; [|split]]].
    + rewrite Hhist, Hhist1, <- app_assoc. reflexivity.
    + simpl. by rewrite Hnum.
    + constructor; [done|]. exact Hbound.
    + constructor; [apply (improves_le _ _ Himp1)|].
      eapply Forall_impl; [exact Hbound|]. intros e He. simpl in *.
      eapply efloat_le_trans; [exact He|]. apply (improves_le _ _ Himp1).
    + intros e. rewrite last_cons.
      destruct (last rest) as [e'|] eqn:Hlast'.
      * intros [= <-]. by apply Hlast.
      * intros [= <-]. simpl. apply last_None in Hlast'. subst rest.
        destruct n; [|discriminate Hnum]. simpl in Hrest.
        by injection Hrest as <-.
Qed.

(** A run of [optimize] that returns normally appends one history entry
    per iteration, numbered from 1 to [num_iterations] (none when that is
    zero or negative); the recorded best lengths never grow, none exceeds
    the best length at the start, and the last entry records the best route
    and length the driver ends with. *)
Theorem optimize_history `{R : Runtime}
    (callback : option (Optimization.progress -> M World unit))
    (st st' : Optimization.t * World) :
  Optimization.optimize callback st = (Ok tt, st') ->
  exists entries,
    st'.1.(Optimization.iteration_history)
    = st.1.(Optimization.iteration_history) ++ entries /\
    map Optimization.iteration entries
    = seq 1 (Z.to_nat st.1.(Optimization.num_iterations)) /\
    non_increasing entries /\
    Forall (fun e => efloat_le e.(Optimization.entry_best_length)
                       st.1.(Optimization.best_length)) entries /\
    (forall e, last entries = Some e ->
               e.(Optimization.entry_best_length) = st'.1.(Optimization.best_length) /\
               e.(Optimization.entry_best_route) = st'.1.(Optimization.best_route)).
Proof.
  unfold Optimization.optimize. intros Hrun.
  apply bind_Ok_inv in Hrun as (k & s0 & Hk & Hrun). injection Hk as <- <-.
  by apply optimize_loop_history in Hrun as [_ H].
Qed.

Lemma optimize_history_witness :
  let st' := (Optimization.optimize (R := Demo.demo_runtime) None (demo_driver, 3%nat)).2 in
  exists entries,
    st'.1.(Optimization.iteration_history) = [] ++ entries /\
    map Optimization.iteration entries = seq 1 (Z.to_nat 3) /\
    non_increasing entries /\
    Forall (fun e => efloat_le e.(Optimization.entry_best_length) PosInf) entries /\
    (forall e, last entries = Some e ->
               e.(Optimization.entry_best_length) = st'.1.(Optimization.best_length) /\
               e.(Optimization.entry_best_route) = st'.1.(Optimization.best_route)).
Proof.
  apply (optimize_history (R := Demo.demo_runtime) None (demo_driver, 3%nat)
           (Optimization.optimize (R := Demo.demo_runtime) None (demo_driver, 3%nat)).2).
  vm_compute. reflexivity.
Defined.

(** ** A colony without ants *)

Lemma run_iteration_without_ants `{R : Runtime} (st : Colony.t * World) :
  st.1.(Colony.ants) = [] ->
  exists st',
    Colony.run_iteration st = (Ok (colony_best st.1), st') /\
    colony_best st'.1 = colony_best st.1 /\
    st'.1.(Colony.ants) = [] /\
    st'.1.(Colony.pheromones) = Pheromone.evaporate st.1.(Colony.pheromones) None.
Proof.
  destruct st as [c w]. destruct c. simpl. intros ->.
  unfold Colony.run_iteration, Colony._prepare_iteration, Colony._perform_iteration,
    Colony._finalize_iteration, Colony._update_pheromones, Colony.now,
    bind, gets, modify.
  simpl. destruct (time_time w) as [x0 w0]. simpl.
  destruct (time_time w0) as [x1 w1]. simpl.
  eexists. split; [reflexivity|]. by repeat split.
Qed.

Lemma optimize_iteration_without_ants `{R : Runtime} callback iteration
    (st : Optimization.t * World) :
  st.1.(Optimization.colony).(Colony.ants) = [] ->
  st.1.(Optimization.colony).(Colony.best_length) = PosInf ->
  let st' := (Optimization.optimize_iteration callback iteration st).2 in
  st'.1.(Optimization.colony).(Colony.ants) = [] /\
  colony_best st'.1.(Optimization.colony) = colony_best st.1.(Optimization.colony) /\
  driver_best st'.1 = driver_best st.1.
Proof.
  intros Hants Hinf.
  destruct (run_iteration_without_ants (st.1.(Optimization.colony), st.2) Hants)
    as ([c w'] & Hrun & Hbest & Hants' & _).
  simpl in *.
  unfold Optimization.optimize_iteration, Optimization.colony_run_iteration, bind.
  rewrite Hrun. unfold modify. simpl. rewrite Hinf. simpl.
  destruct callback as [f|]; simpl; [destruct (f _ _) as [r w2]|]; by repeat split.
Qed.

(** A colony without ants never finds a route: whatever the number of
    iterations and whatever the callback does, [optimize] leaves the
    driver's best route and length as they were, [None] and infinite when
    they come from the constructor, and the colony's as well. *)
Theorem optimize_without_ants `{R : Runtime}
    (callback : option (Optimization.progress -> M World unit))
    (st : Optimization.t * World) :
  st.1.(Optimization.colony).(Colony.ants) = [] ->
  st.1.(Optimization.colony).(Colony.best_length) = PosInf ->
  driver_best (Optimization.optimize callback st).2.1 = driver_best st.1 /\
  colony_best (Optimization.optimize callback st).2.1.(Optimization.colony)
  = colony_best st.1.(Optimization.colony).
Proof.
  pose (rel := fun s s' : Optimization.t * World =>
                 s.1.(Optimization.colony).(Colony.ants) = [] ->
                 s.1.(Optimization.colony).(Colony.best_length) = PosInf ->
                 s'.1.(Optimization.colony).(Colony.ants) = [] /\
                 colony_best s'.1.(Optimization.colony)
                 = colony_best s.1.(Optimization.colony) /\
                 driver_best s'.1 = driver_best s.1).
  assert (forall s, rel s s) as Hrefl by (by intros s ? ?).
  assert (forall s1 s2 s3, rel s1 s2 -> rel s2 s3 -> rel s1 s3) as Htrans.
  { intros s1 s2 s3 H12 H23 Ha Hb.
    destruct (H12 Ha Hb) as (Ha2 & Hc2 & Hd2).
    assert (s2.1.(Optimization.colony).(Colony.best_length) = PosInf) as Hb2.
    { injection Hc2 as _ ->. exact Hb. }
    destruct (H23 Ha2 Hb2) as (Ha3 & Hc3 & Hd3).
    split; [done|]. split; congruence. }
  assert (preserves rel (Optimization.optimize callback)) as H.
  { unfold Optimization.optimize.
    apply (preserves_bind rel Htrans); [apply (preserves_gets rel Hrefl)|intros k].
    apply (preserves_for_each rel Hrefl Htrans).
    intros i s Ha Hb. by apply optimize_iteration_without_ants. }
  intros Ha Hb. destruct (H st Ha Hb) as (_ & Hc & Hd). by split.
Qed.

Lemma optimize_without_ants_witness :
  let o := Optimization.mk 5 (Colony.set_ants demo_colony []) None PosInf [] in
  driver_best (Optimization.optimize (R := Demo.demo_runtime) None (o, 0%nat)).2.1
  = (None, PosInf) /\
  colony_best
    (Optimization.optimize (R := Demo.demo_runtime) None (o, 0%nat)).2.1
      .(Optimization.colony)
  = (seq 0 4, PosInf).
Proof.
  apply (optimize_without_ants (R := Demo.demo_runtime) None
           (Optimization.mk 5 (Colony.set_ants demo_colony []) None PosInf [], 0%nat));
    reflexivity.
Defined.

(** ** Colony: construction *)

Lemma make_ants_spec `{R : Runtime} `{!RuntimeLaws R} k n alpha beta :
  forall w ants w',
    Colony.make_ants k n alpha beta w = (Ok ants, w') ->
    length ants = k /\
    Forall (fun a => is_reset a /\ a.(Ant.start_node) < n /\
                     a.(Ant.num_nodes) = n /\
                     a.(Ant.alpha) = alpha /\ a.(Ant.beta) = beta) ants.
Proof.
  induction k as [|k IH]; intros w ants w'; simpl.
  - intros [= <- <-]. split; [done|constructor].
  - unfold bind at 1.
    destruct (random_randint 0 (Z.of_nat n - 1) w) as [[start|e] w1] eqn:Hstart;
      [|discriminate].
    apply random_randint_range in Hstart.
    unfold bind at 1.
    destruct (Colony.make_ants k n alpha beta w1) as [[rest|e] w2] eqn:Hrest;
      [|discriminate].
    intros [= <- <-]. destruct (IH _ _ _ Hrest) as [Hlen Hall].
    split; [simpl; by rewrite Hlen|].
    constructor; [|done]. simpl. repeat split. lia.
Qed.

(** A problem whose nodes did not load makes [Colony.__init__] raise
    [TypeError].  When it returns a colony, the colony has one ant per
    requested ant (none for a count below 1), each reset at a start node of
    the graph and carrying the problem's exponents; its pheromone field is
    the initial one for the number of nodes; no best length is known yet and
    the best route is the identity order; the counters are zero. *)
Theorem colony_init_result `{R : Runtime} `{!RuntimeLaws R}
    (problem : Problem.t) (w : World) :
  (problem.(Problem.nodes) = None ->
   Colony.__init__ problem w = (Raise TypeError, w)) /\
  (forall c w',
     Colony.__init__ problem w = (Ok c, w') ->
     exists nodes,
       problem.(Problem.nodes) = Some nodes /\
       c.(Colony.problem) = problem /\
       c.(Colony.num_nodes) = length nodes /\
       length c.(Colony.ants) = Z.to_nat problem.(Problem.num_ants) /\
       Forall (fun a => is_reset a /\
                        a.(Ant.start_node) < length nodes /\
                        a.(Ant.num_nodes) = length nodes /\
                        a.(Ant.alpha) = problem.(Problem.alpha) /\
                        a.(Ant.beta) = problem.(Problem.beta))
              c.(Colony.ants) /\
       c.(Colony.pheromones)
       = Pheromone.__init__ (length nodes) problem.(Problem.evaporation_rate)
           problem.(Problem.pheromone_rate) /\
       colony_best c = (seq 0 (length nodes), PosInf) /\
       c.(Colony.current_iteration) = 0 /\
       c.(Colony.iteration_history) = []).
Proof.
  unfold Colony.__init__. split.
  - by intros ->.
  - intros c w'. destruct (Problem.nodes problem) as [nodes|]; [|discriminate].
    unfold bind.
    destruct (Colony.make_ants _ _ _ _ w) as [[ants|e] w1] eqn:Hants;
      [|discriminate].
    intros [= <- <-]. apply make_ants_spec in Hants as [Hlen Hall].
    exists nodes. by repeat split.
Qed.

(** ** Ant: the state a completed route leaves *)

Lemma visit_next_parameters `{R : Runtime} distances pheromones st st' :
  Ant.visit_next distances pheromones st = (Ok tt, st') ->
  st'.1.(Ant.alpha) = st.1.(Ant.alpha) /\ st'.1.(Ant.beta) = st.1.(Ant.beta).
Proof.
  unfold Ant.visit_next.
  destruct (Ant._choose_next_node _ _ _ _) as [[x|e] w']; [|discriminate].
  destruct (last _); [|discriminate].
  destruct (mget _ _ _); [|discriminate].
  by intros [= <-].
Qed.

(** After a completed [find_route] the ant has marked as visited exactly the
    nodes [0 .. N-1] of the graph, and its start node, node count and
    exponents are the ones it had before. *)
Theorem find_route_visits_every_node `{R : Runtime} `{!RuntimeLaws R}
    (self : Ant.t) (distances pheromones : matrix) (w : World)
    (self' : Ant.t) (w' : World) :
  square self.(Ant.num_nodes) distances ->
  Ant.find_route self distances pheromones w = (Ok tt, (self', w')) ->
  (forall x, x ∈ self'.(Ant.visited) <-> x < self.(Ant.num_nodes)) /\
  self'.(Ant.start_node) = self.(Ant.start_node) /\
  self'.(Ant.num_nodes) = self.(Ant.num_nodes) /\
  self'.(Ant.alpha) = self.(Ant.alpha) /\
  self'.(Ant.beta) = self.(Ant.beta).
Proof.
  intros Hsq Hrun.
  pose proof (find_route_start_in_range _ _ _ _ _ _ Hsq Hrun) as Hstart.
  revert Hrun. unfold Ant.find_route.
  destruct (Ant.while_unvisited _ _ _) as [[[]|e] [self1 w1]] eqn:Hloop;
    [|discriminate].
  destruct (find_route_loop_exit self _ _ _ _ _ Hstart Hloop)
    as ((Hnd & Hvis & Hlt & Hhead) & Hs & Hn & Hexit).
  pose (I := fun st : Ant.t * World =>
               st.1.(Ant.alpha) = self.(Ant.alpha) /\
               st.1.(Ant.beta) = self.(Ant.beta)).
  destruct (while_unvisited_invariant I distances pheromones) with
    (st := (Ant.reset self, w)) (st' := (self1, w1)) as [[Ha Hb] _];
    [|done|done|].
  { intros st st' [Ha Hb] _ Hstep. unfold I.
    destruct (visit_next_parameters _ _ _ _ Hstep) as [-> ->]. done. }
  destruct (last _) as [previous|]; [|discriminate].
  destruct (mget _ _ _) as [d|]; [|discriminate].
  intros [= <- <-]. simpl. simpl in Ha, Hb.
  split; [|done].
  rewrite Hn in Hlt.
  pose proof (full_route_is_permutation _ _ Hnd Hlt Hexit) as Hperm.
  intros x. rewrite <- Hvis, Hperm, elem_of_seq. lia.
Qed.

Lemma find_route_visits_every_node_witness :
  (forall x, x ∈ ({[ 0; 1; 2 ]} : gset nat) <-> x < 3) /\
  0 = 0 /\ 3 = 3 /\ 1%Q = 1%Q /\ 2%Q = 2%Q.
Proof.
  assert (square 3 Demo.d3) as Hsq.
  { split; [reflexivity|]. repeat constructor. }
  assert (Ant.find_route (R := Demo.demo_runtime) Demo.ant0 Demo.d3
            Demo.p3.(Pheromone.trails) 1%nat
          = (Ok tt, (Ant.mk 0 [0; 2; 1; 0] {[ 0; 1; 2 ]} 6 3 1 2, 3%nat))) as Hrun.
  { vm_compute. reflexivity. }
  exact (@find_route_visits_every_node Demo.demo_runtime Demo.demo_runtime_laws
           Demo.ant0 Demo.d3 Demo.p3.(Pheromone.trails) 1%nat
           (Ant.mk 0 [0; 2; 1; 0] {[ 0; 1; 2 ]} 6 3 1 2) 3%nat Hsq Hrun).
Defined.

(** On a graph of at most one node the loop of [find_route] does not turn:
    no node is drawn and the world is untouched; the route is the start node
    twice and the total is the distance from the start node to itself.  The
    route has two entries also when the ant was built for zero nodes. *)
Theorem find_route_single_node `{R : Runtime}
    (self : Ant.t) (distances pheromones : matrix) (w : World) (x : Q) :
  self.(Ant.num_nodes) <= 1 ->
  mget distances self.(Ant.start_node) self.(Ant.start_node) = Some x ->
  Ant.find_route self distances pheromones w
  = (Ok tt,
     ({| Ant.start_node := self.(Ant.start_node);
         Ant.route := [self.(Ant.start_node); self.(Ant.start_node)];
         Ant.visited := {[ self.(Ant.start_node) ]};
         Ant.total_distance := 0 + x;
         Ant.num_nodes := self.(Ant.num_nodes);
         Ant.alpha := self.(Ant.alpha);
         Ant.beta := self.(Ant.beta) |}, w)).
Proof.
  intros Hn Hx. unfold Ant.find_route. rewrite while_unvisited_unfold. simpl.
  destruct (1 <? Ant.num_nodes self) eqn:Hc; [apply Nat.ltb_lt in Hc; lia|].
  simpl. by rewrite Hx.
Qed.

Lemma find_route_single_node_witness :
  Ant.find_route (R := Demo.demo_runtime) (Ant.__init__ 0 1 1 2) [[0%Q]] [[100%Q]] 7%nat
  = (Ok tt, (Ant.mk 0 [0; 0] {[ 0 ]} (0 + 0) 1 1 2, 7%nat)).
Proof.
  apply (find_route_single_node (R := Demo.demo_runtime)
           (Ant.__init__ 0 1 1 2) [[0%Q]] [[100%Q]] 7%nat 0%Q).
  - simpl. lia.
  - reflexivity.
Defined.

Lemma colony_init_result_witness :
  exists nodes,
    Demo.unit_square = nodes /\
    length demo_colony.(Colony.ants) = 3 /\
    colony_best demo_colony = (seq 0 (length nodes), PosInf).
Proof.
  destruct (proj2 (@colony_init_result Demo.demo_runtime Demo.demo_runtime_laws
                     demo_problem 0%nat) demo_colony 3%nat)
    as (nodes & Hnodes & _ & _ & Hants & _ & _ & Hbest & _).
  - vm_compute. reflexivity.
  - exists nodes. split; [by injection Hnodes|]. split; [exact Hants|exact Hbest].
Defined.

(** ** Problem: reading the problem file *)

Section Scanner.
Variable str_strip : string -> string.
Variable str_split : string -> list string.
Variable int_of : string -> result Z.
Variable float_of : string -> result Q.

Let parse_row := ProblemFile.parse_row str_split int_of float_of.
Let scan := ProblemFile.scan str_strip str_split int_of float_of.

Lemma scan_reading lines : forall acc,
  scan true acc lines
  = prepend acc
      (parse_all parse_row
         (filter (fun line => line <> "NODE_COORD_SECTION")
                 (until_eof (map str_strip lines)))).
Proof.
  induction lines as [|raw rest IH]; intros acc; simpl.
  - by rewrite app_nil_r.
  - destruct (decide (str_strip raw = "NODE_COORD_SECTION")) as [Hm|Hm].
    + rewrite Hm. simpl. rewrite filter_cons_False by (by intros []).
      apply IH.
    + destruct (decide (str_strip raw = "EOF")) as [He|He].
      * simpl. by rewrite app_nil_r.
      * rewrite filter_cons_True by done. simpl.
        fold parse_row. destruct (parse_row (str_strip raw)) as [row|e]; [|done].
        fold scan. rewrite IH.
        destruct (parse_all _ _) as [ns|e]; simpl; [|done].
        by rewrite <- app_assoc.
Qed.

Lemma scan_spec lines : forall acc,
  scan false acc lines = prepend acc (parse_all parse_row (node_lines str_strip lines)).
Proof.
  unfold node_lines.
  induction lines as [|raw rest IH]; intros acc; simpl.
  - by rewrite app_nil_r.
  - destruct (decide (str_strip raw = "NODE_COORD_SECTION")) as [Hm|Hm].
    + rewrite Hm. simpl. apply scan_reading.
    + destruct (decide (str_strip raw = "EOF")) as [He|He].
      * simpl. by rewrite app_nil_r.
      * simpl. rewrite decide_False by done. apply IH.
Qed.

Lemma after_section_without lines :
  Forall (fun line => line <> "NODE_COORD_SECTION") lines -> after_section lines = [].
Proof.
  induction 1 as [|line rest Hline _ IH]; simpl; [done|].
  by rewrite decide_False.
Qed.

Lemma until_eof_Forall (P : string -> Prop) lines :
  Forall P lines -> Forall P (until_eof lines).
Proof.
  induction 1 as [|line rest Hline _ IH]; simpl; [constructor|].
  destruct (decide (line = "EOF")); by constructor.
Qed.

(** A missing file gives no table and no error.  Otherwise [load_nodes]
    returns the rows parsed, in order, from the stripped lines that lie
    between the first [NODE_COORD_SECTION] line and the first [EOF] line (or
    the end of the file), further [NODE_COORD_SECTION] lines skipped; the
    lines before and after are not parsed, and the first line of the section
    that does not parse raises its error. *)
Theorem load_nodes_reads_section (file : option (list string)) :
  ProblemFile.load_nodes str_strip str_split int_of float_of file
  = match file with
    | None => Ok None
    | Some lines =>
        match parse_all parse_row (node_lines str_strip lines) with
        | Raise e => Raise e
        | Ok ns => Ok (Some ns)
        end
    end.
Proof.
  destruct file as [lines|]; [|done]. unfold ProblemFile.load_nodes.
  fold scan. rewrite scan_spec.
  by destruct (parse_all _ _).
Qed.

(** A file without a [NODE_COORD_SECTION] line, whatever else it holds,
    loads as an empty table: no line is parsed and nothing is raised. *)
Theorem load_nodes_without_section (lines : list string) :
  Forall (fun raw => str_strip raw <> "NODE_COORD_SECTION") lines ->
  ProblemFile.load_nodes str_strip str_split int_of float_of (Some lines)
  = Ok (Some []).
Proof.
  intros Hlines. unfold ProblemFile.load_nodes. fold scan. rewrite scan_spec.
  unfold node_lines. rewrite after_section_without; [done|].
  apply until_eof_Forall. by apply Forall_fmap.
Qed.

End Scanner.

Lemma load_nodes_without_section_witness :
  ProblemFile.load_nodes (fun s => s) (fun s => [s])
    (fun _ => Raise ValueError) (fun _ => Raise ValueError)
    (Some ["NAME: gr17"; "EDGE_WEIGHT_SECTION"; "0 633 0"; "EOF"])
  = Ok (Some []).
Proof.
  apply (load_nodes_without_section (fun s => s) (fun s => [s])
           (fun _ => Raise ValueError) (fun _ => Raise ValueError)).
  repeat constructor; discriminate.
Defined.

(** A file of two nodes, with a header, a blank-free section and a trailer
    that would not parse. *)
Example load_nodes_scenario :
  ProblemFile.load_nodes (fun s => s) (fun s => [s; s; s])
    (fun s => if decide (s = "x") then Raise ValueError else Ok 1%Z)
    (fun s => if decide (s = "x") then Raise ValueError else Ok 0%Q)
    (Some ["x"; "NODE_COORD_SECTION"; "1"; "2"; "EOF"; "x"])
  = Ok (Some [mk_node 1 0 0; mk_node 1 0 0]) /\
  ProblemFile.load_nodes (fun s => s) (fun s => [s; s; s])
    (fun s => if decide (s = "x") then Raise ValueError else Ok 1%Z)
    (fun s => if decide (s = "x") then Raise ValueError else Ok 0%Q)
    (Some ["NODE_COORD_SECTION"; "1"; "x"; "EOF"])
  = Raise ValueError.
Proof. split; reflexivity. Qed.

(** ** The two lengths on binary64 floats *)

Section Binary64Lengths.
Variable W : Type.
Variable float_power : float -> float -> float.
Variable random_choice : list nat -> list float -> W -> result nat * W.

Let visit_next := Binary64.visit_next W float_power random_choice.
Let while_unvisited := Binary64.while_unvisited W float_power random_choice.
Let find_route := Binary64.find_route W float_power random_choice.

Lemma binary64_visit_next_length distances pheromones st st' :
  visit_next distances pheromones st = (Ok tt, st') ->
  length st'.1.(Binary64.route) = S (length st.1.(Binary64.route)) /\
  st'.1.(Binary64.num_nodes) = st.1.(Binary64.num_nodes).
Proof.
  unfold visit_next, Binary64.visit_next.
  destruct (Binary64._choose_next_node _ _ _ _ _ _ _) as [[n|e] w']; [|discriminate].
  destruct (last _) as [c|]; [|discriminate].
  destruct (Binary64.fget _ _ _); [|discriminate].
  intros [= <-]. simpl. rewrite length_app. simpl. split; [lia|reflexivity].
Qed.

(** The recursion on the number of turns is the loop
    [while len(self.route) < self.num_nodes]. *)
Lemma binary64_while_unvisited_unfold distances pheromones (st : Binary64.t * W) :
  while_unvisited (st.1.(Binary64.num_nodes) - length st.1.(Binary64.route))
    distances pheromones st =
  if length st.1.(Binary64.route) <? st.1.(Binary64.num_nodes) then
    match visit_next distances pheromones st with
    | (Ok _, st') =>
        while_unvisited (st'.1.(Binary64.num_nodes) - length st'.1.(Binary64.route))
          distances pheromones st'
    | (Raise e, st') => (Raise e, st')
    end
  else (Ok tt, st).
Proof.
  destruct (length _ <? _) eqn:Hc.
  - apply Nat.ltb_lt in Hc.
    destruct (Binary64.num_nodes st.1 - length (Binary64.route st.1)) as [|k] eqn:Hk;
      [lia|].
    simpl. fold visit_next.
    destruct (visit_next distances pheromones st) as [[[]|e] st'] eqn:Hstep;
      [|reflexivity].
    apply binary64_visit_next_length in Hstep as [Hlen Hnum].
    fold while_unvisited. f_equal. lia.
  - apply Nat.ltb_ge in Hc.
    by replace (Binary64.num_nodes st.1 - length (Binary64.route st.1)) with 0 by lia.
Qed.

Lemma binary64_edge_lengths_snoc d (route : list nat) c n ls x :
  last route = Some c ->
  Binary64.edge_lengths d route = Some ls ->
  Binary64.fget d c n = Some x ->
  Binary64.edge_lengths d (route ++ [n]) = Some (ls ++ [x]).
Proof.
  unfold Binary64.edge_lengths. intros Hlast Hls Hx.
  rewrite (consecutive_snoc route c n Hlast).
  apply mapM_Some. apply mapM_Some in Hls.
  apply Forall2_app; [done|]. by repeat constructor.
Qed.

Lemma binary64_visit_next_total distances pheromones st st' :
  binary64_total distances st.1 ->
  visit_next distances pheromones st = (Ok tt, st') ->
  binary64_total distances st'.1.
Proof.
  intros (Hhead & ls & Hls & Htotal). unfold visit_next, Binary64.visit_next.
  destruct (Binary64._choose_next_node _ _ _ _ _ _ _) as [[n|e] w']; [|discriminate].
  destruct (last _) as [c|] eqn:Hlast; [|discriminate].
  destruct (Binary64.fget _ _ _) as [x|] eqn:Hx; [|discriminate].
  intros [= <-]. simpl. split.
  - revert Hhead. simpl. by destruct (Binary64.route st.1).
  - exists (ls ++ [x]). split; [by eapply binary64_edge_lengths_snoc|].
    simpl. by rewrite fold_left_app, Htotal.
Qed.

Lemma binary64_while_unvisited_total distances pheromones turns : forall st st',
  binary64_total distances st.1 ->
  while_unvisited turns distances pheromones st = (Ok tt, st') ->
  binary64_total distances st'.1.
Proof.
  induction turns as [|k IH]; intros st st' Hinv; simpl.
  - by intros [= <-].
  - fold visit_next.
    destruct (visit_next distances pheromones st) as [[[]|e] st1] eqn:Hstep;
      [|discriminate].
    apply IH. by eapply binary64_visit_next_total.
Qed.

(** On the floats of the code, and for every distance matrix: when
    [find_route] completes, the total distance of the ant is the sum of the
    edge lengths of its route taken from left to right from [0.0], and
    [get_length] of the route is [np.sum] of the same edge lengths plus the
    diagonal entry at the start node. *)
Theorem binary64_total_distance_and_tour_length
    (self : Binary64.t) (distances pheromones : Binary64.fmatrix) (w : W)
    (self' : Binary64.t) (w' : W) :
  find_route self distances pheromones w = (Ok tt, (self', w')) ->
  exists ls,
    Binary64.edge_lengths distances self'.(Binary64.route) = Some ls /\
    self'.(Binary64.total_distance) = fold_left PrimFloat.add ls 0%float /\
    Binary64.get_length (Some distances) self'.(Binary64.route)
    = match Binary64.fget distances self'.(Binary64.start_node)
              self'.(Binary64.start_node) with
      | Some closing => Ok (Binary64.np_sum ls + closing)%float
      | None => Raise IndexError
      end.
Proof.
  unfold find_route, Binary64.find_route. fold while_unvisited.
  destruct (while_unvisited _ _ _ _) as [[[]|e] [self1 w1]] eqn:Hloop;
    [|discriminate].
  apply binary64_while_unvisited_total in Hloop
    as (Hhead & ls & Hls & Htotal);
    [|split; [reflexivity|by exists []]].
  simpl in Hhead, Hls, Htotal.
  destruct (last _) as [previous|] eqn:Hlast; [|discriminate].
  destruct (Binary64.fget _ _ _) as [x|] eqn:Hx; [|discriminate].
  intros [= <- <-]. simpl.
  pose proof (binary64_edge_lengths_snoc _ _ _ _ _ _ Hlast Hls Hx) as Hls'.
  destruct (Binary64.route self1) as [|first rest] eqn:Hroute; [done|].
  injection Hhead as ->.
  pose proof (last_last (Binary64.start_node self1 :: rest)
                (Binary64.start_node self1) (Binary64.start_node self1)) as Hfinal.
  exists (ls ++ [x]). split; [exact Hls'|].
  split; [by rewrite fold_left_app, Htotal|].
  unfold Binary64.get_length.
  change ((Binary64.start_node self1 :: rest) ++ [Binary64.start_node self1])
    with (Binary64.start_node self1 :: rest ++ [Binary64.start_node self1]) in *.
  by rewrite Hls', Hfinal.
Qed.

End Binary64Lengths.

Lemma binary64_total_distance_and_tour_length_witness :
  exists ls,
    Binary64.edge_lengths Binary64.d10 [0; 1; 2; 3; 4; 5; 6; 7; 8; 9; 0] = Some ls /\
    Binary64.below_one = fold_left PrimFloat.add ls 0%float /\
    Binary64.get_length (Some Binary64.d10) [0; 1; 2; 3; 4; 5; 6; 7; 8; 9; 0]
    = match Binary64.fget Binary64.d10 0 0 with
      | Some closing => Ok (Binary64.np_sum ls + closing)%float
      | None => Raise IndexError
      end.
Proof.
  assert (Binary64.find_route unit Binary64.power_of_one Binary64.no_draw
            Binary64.ant10 Binary64.d10 Binary64.no_pheromone tt
          = (Ok tt,
             (Binary64.mk 0 [0; 1; 2; 3; 4; 5; 6; 7; 8; 9; 0]
                (list_to_set (seq 0 10)) Binary64.below_one 10 1 1, tt))) as Hrun.
  { vm_compute. reflexivity. }
  exact (binary64_total_distance_and_tour_length unit Binary64.power_of_one
           Binary64.no_draw Binary64.ant10 Binary64.d10 Binary64.no_pheromone tt
           _ tt Hrun).
Defined.
